(** * afl-aggregation-bench: the rate-tracking aggregation experiment

    A shallow embedding of
      - [src/afl_bench/experiments/rate_tracker.py]
        ([RateTracker] and [aggregation_func]), and
      - [src/afl_bench/experiments/utils.py]
        (the client-info loop of [get_cmd_line_parser]),
    followed by the properties of the embedded code.

    Numbers.  Python floats (timestamps, rates, weights, tensor entries) are
    idealised as exact rationals [Qc]: rounding, infinities and NaN are not
    modelled.  Float division keeps its Python behaviour of raising
    [ZeroDivisionError] on a zero divisor. *)

From Stdlib Require Import QArith Qcanon Ascii.
From stdpp Require Import base numbers list strings gmap.

(** ** Python exceptions and results *)

Inductive exn : Set :=
  | ValueError | KeyError | IndexError | TypeError
  | ZeroDivisionError | AssertionError | RuntimeError.

Inductive result (A : Type) : Type :=
  | Ok (a : A)
  | Raise (e : exn).
Arguments Ok {A} a.
Arguments Raise {A} e.

#[global] Instance exn_eq_dec : EqDecision exn.
Proof. solve_decision. Defined.

#[global] Instance result_eq_dec `{EqDecision A} : EqDecision (result A).
Proof. solve_decision. Defined.

#[global] Instance result_ret : MRet result := @Ok.
#[global] Instance result_bind : MBind result := λ A B f m,
  match m with
  | Ok a => f a
  | Raise e => Raise e
  end.

#[global] Instance result_fmap : FMap result := λ A B f m,
  match m with
  | Ok a => Ok (f a)
  | Raise e => Raise e
  end.

(** [assert c]. *)
Definition py_assert (c : bool) : result unit :=
  if c then Ok () else Raise AssertionError.

(** Float division [a / b]. *)
Definition py_div (a b : Qc) : result Qc :=
  if decide (b = 0%Qc) then Raise ZeroDivisionError else Ok (a / b)%Qc.

(** [sum(xs)]: left to right, from 0. *)
Definition py_sum (xs : list Qc) : Qc := foldl Qcplus 0%Qc xs.

(** Loops that build a list and stop at the first exception. *)
Fixpoint for_each {A B} (f : A → result B) (xs : list A) : result (list B) :=
  match xs with
  | [] => Ok []
  | x :: xs' => y ← f x; ys ← for_each f xs'; Ok (y :: ys)
  end.

(** ** RateTracker (rate_tracker.py, lines 33-54) *)

(** [window_size] is a count of timestamps, a natural number; client ids
    are Python integers; [client_update] is the [defaultdict(list)], whose
    lists hold the timestamps in the order they were appended. *)
Record RateTracker : Type := mkRateTracker {
  window_size : nat;
  client_update : gmap Z (list Qc)
}.

(** [RateTracker.__init__]; the module creates [RateTracker()] with the
    default [window_size=5]. *)
Definition RateTracker_init (window_size : nat) : RateTracker :=
  mkRateTracker window_size ∅.
Definition rate_tracker : RateTracker := RateTracker_init 5.

(** Methods run in a state-and-exception monad over the tracker: the
    state that is left behind is also known when the call raises. *)
Definition M (A : Type) : Type := RateTracker → result A * RateTracker.

#[global] Instance M_ret : MRet M := λ A a rt, (Ok a, rt).
#[global] Instance M_bind : MBind M := λ A B f m rt,
  match m rt with
  | (Ok a, rt') => f a rt'
  | (Raise e, rt') => (Raise e, rt')
  end.

Definition lift {A} (r : result A) : M A := λ rt, (r, rt).

Fixpoint for_eachM {A B} (f : A → M B) (xs : list A) : M (list B) :=
  match xs with
  | [] => mret []
  | x :: xs' => y ← f x; ys ← for_eachM f xs'; mret (y :: ys)
  end.

(** The list stored under [client_id], as the tracker's methods would find
    it ([[]] for an id never seen). *)
Definition window (rt : RateTracker) (client_id : Z) : list Qc :=
  default [] (client_update rt !! client_id).

(** [self.client_update[client_id]] on a defaultdict: a missing key is
    inserted with a fresh empty list. *)
Definition getitem (client_id : Z) : M (list Qc) := λ rt,
  match client_update rt !! client_id with
  | Some l => (Ok l, rt)
  | None =>
      (Ok [], mkRateTracker (window_size rt) (<[client_id := []]> (client_update rt)))
  end.

Definition setitem (client_id : Z) (l : list Qc) : M unit := λ rt,
  (Ok (), mkRateTracker (window_size rt) (<[client_id := l]> (client_update rt))).

Definition get_window_size : M nat := λ rt, (Ok (window_size rt), rt).

(** [self.client_update[client_id].pop()]: [list.pop()] without an index
    removes and returns the LAST element; on an empty list it raises. *)
Definition window_pop (client_id : Z) : M Qc :=
  l ← getitem client_id;
  match last l with
  | Some x => _ ← setitem client_id (removelast l); mret x
  | None => lift (Raise IndexError)
  end.

(** [self.client_update[client_id].append(x)]. *)
Definition window_append (client_id : Z) (x : Qc) : M unit :=
  l ← getitem client_id;
  setitem client_id (l ++ [x]).

(** [track_update]; [now] is the value that [time.time()] returns. *)
Definition track_update (client_id : Z) (now : Qc) : M unit :=
  l ← getitem client_id;
  ws ← get_window_size;
  _ ← (if decide (ws ≤ length l) then _ ← window_pop client_id; mret ()
       else mret ());
  window_append client_id now.

(** The rate of one window: the arithmetic of [get_rate]. *)
Definition rate_of (l : list Qc) : result Qc :=
  if decide (length l < 2) then Ok 0%Qc
  else
    match last l, head l with
    | Some newest, Some oldest =>
        py_div (Qc_of_Z (Z.of_nat (length l))) (newest - oldest)%Qc
    | _, _ => Raise IndexError
    end.

(** [get_rate]: every [self.client_update[client_id]] of the method reads
    the same list; the first one inserts the key when it is missing. *)
Definition get_rate (client_id : Z) : M Qc :=
  l ← getitem client_id;
  lift (rate_of l).

(** [self.client_update.keys()].  The order in which the keys come does
    not matter to [get_rate_total]: the sum of exact rationals does not
    depend on it, and the only exception [get_rate] raises is
    [ZeroDivisionError]. *)
Definition keys : M (list Z) := λ rt,
  (Ok ((map_to_list (client_update rt)).*1), rt).

(** [get_rate_total]: the keys are in the dictionary, so no call of
    [get_rate] inserts one while they are iterated over. *)

Definition get_rate_total : M Qc :=
  ks ← keys;
  rates ← for_eachM get_rate ks;
  mret (py_sum rates).

(** ** Tensors

    [aggregation_func] uses five operations of [torch.Tensor]: [.shape],
    [t - old_t], [w * t] with a Python number [w],
    [torch.sum(torch.stack(ts, 0), 0)] and [global_param + computed_update].
    They are an interface here; the binary operations and [stack] raise
    [RuntimeError] on operands whose shapes they do not accept. *)

Class Tensor (T : Type) : Type := {
  shape : T → list nat;
  tsub : T → T → result T;
  tscale : Qc → T → T;
  tstack_sum : list T → result T;
  tadd : T → T → result T;
  (** every entry is zero *)
  tzero : T → Prop
}.

(** What the aggregation properties use of tensor arithmetic, on operands
    of equal shape. *)
Record TensorLaws (T : Type) `{Tensor T} : Prop := {
  tsub_shape : ∀ a b : T,
    shape a = shape b → ∃ c, tsub a b = Ok c ∧ shape c = shape a;
  tscale_shape : ∀ w (a : T), shape (tscale w a) = shape a;
  tstack_sum_shape : ∀ (t : T) ts,
    Forall (λ u, shape u = shape t) ts →
    ∃ z, tstack_sum (t :: ts) = Ok z ∧ shape z = shape t;
  tscale_zero : ∀ a : T, tzero (tscale 0%Qc a);
  tstack_sum_zero : ∀ (ts : list T) z,
    Forall tzero ts → tstack_sum ts = Ok z → tzero z;
  tadd_zero : ∀ g z : T, tzero z → shape z = shape g → tadd g z = Ok g
}.

(** One-dimensional tensors of rationals, with torch's broadcasting rule
    for one dimension: sizes must agree unless one of them is 1. *)
Definition tensor1 : Type := list Qc.

Definition broadcast2 (f : Qc → Qc → Qc) (a b : tensor1) : result tensor1 :=
  if decide (length a = length b) then Ok (zip_with f a b)
  else
    match a, b with
    | [x], _ => Ok (map (f x) b)
    | _, [y] => Ok (map (λ x, f x y) a)
    | _, _ => Raise RuntimeError
    end.

Definition tensor1_stack_sum (ts : list tensor1) : result tensor1 :=
  match ts with
  | [] => Raise RuntimeError
  | t :: ts' =>
      if bool_decide (Forall (λ u, length u = length t) ts')
      then Ok (foldl (zip_with Qcplus) t ts')
      else Raise RuntimeError
  end.

#[global] Instance tensor1_ops : Tensor tensor1 := {|
  shape v := [length v];
  tsub := broadcast2 Qcminus;
  tscale w := map (Qcmult w);
  tstack_sum := tensor1_stack_sum;
  tadd := broadcast2 Qcplus;
  tzero := Forall (λ x, x = 0%Qc)
|}.

(** ** Python sequence helpers *)

(** [sub in s] on strings. *)
Fixpoint str_contains (sub s : string) : bool :=
  String.prefix sub s ||
  match s with
  | EmptyString => false
  | String _ s' => str_contains sub s'
  end.

(** Python's zip applied to the unpacked [xss]: the rows of the
    transposition, as many as the shortest list has elements; the zip of
    no list at all is empty. *)
Fixpoint zip_star {A} (xss : list (list A)) : list (list A) :=
  match xss with
  | [] => []
  | [xs] => map (λ x, [x]) xs
  | xs :: xss' => zip_with cons xs (zip_star xss')
  end.

(** ** aggregation_func (rate_tracker.py, lines 61-135) *)

(** [ModelParams]: the ordered (name, tensor) pairs of a model. *)
Abbreviation ModelParams T := (list (string * T)) (only parsing).

(** [ClientUpdate]: the tuple (client id, old model, new model, version the
    client started from), in the order line 71 unpacks it. *)
Abbreviation ClientUpdate T :=
  (Z * ModelParams T * ModelParams T * Z)%type (only parsing).

Section Aggregation.
Context {T : Type} `{Tensor T}.

Definition update_id (u : ClientUpdate T) : Z := u.1.1.1.
Definition update_old (u : ClientUpdate T) : ModelParams T := u.1.1.2.
Definition update_new (u : ClientUpdate T) : ModelParams T := u.1.2.
Definition update_version (u : ClientUpdate T) : Z := u.2.

(** [num_clients = len(args["client_runtimes"])], a module global. *)
Variable num_clients : nat.

(** Lines 71-73: the transposition of [client_updates] is unpacked into
    four names.  The transposition of an empty list is the empty tuple,
    and unpacking it into four names raises [ValueError]. *)
Definition unzip_updates (client_updates : list (ClientUpdate T))
  : result (list Z * list (ModelParams T) * list (ModelParams T) * list Z) :=
  match client_updates with
  | [] => Raise ValueError
  | _ => Ok (update_id <$> client_updates, update_old <$> client_updates,
             update_new <$> client_updates, update_version <$> client_updates)
  end.

(** Lines 78-81. *)
Definition rate_ratios (rate_total : Qc) (client_ids : list Z) : M (list Qc) :=
  for_eachM (λ client_id,
    if decide (0 < rate_total)%Qc
    then r ← get_rate client_id; lift (py_div r rate_total)
    else mret 0%Qc) client_ids.

(** Line 83. *)
Definition raw_weights (ratios : list Qc) : result (list Qc) :=
  for_each (λ ratio,
    if decide (0 < ratio)%Qc
    then py_div 1%Qc (Qc_of_Z (Z.of_nat num_clients))
    else Ok 0%Qc) ratios.

(** Lines 84-85. *)
Definition renormalize (weights : list Qc) : result (list Qc) :=
  let weight_total := py_sum weights in
  for_each (λ weight,
    if decide (0 < weight_total)%Qc
    then py_div weight weight_total
    else Ok 0%Qc) weights.

(** Lines 76-85. *)
Definition compute_weights (client_ids : list Z) : M (list Qc) :=
  rate_total ← get_rate_total;
  ratios ← rate_ratios rate_total client_ids;
  weights ← lift (raw_weights ratios);
  lift (renormalize weights).

(** Lines 88-89; [clock k] is what the [k]-th [time.time()] of the loop
    returns. *)
Definition track_clients (clock : nat → Qc) (client_ids : list Z) : M (list ()) :=
  for_eachM (λ '(k, client_id), track_update client_id (clock k))
            (zip (seq 0 (length client_ids)) client_ids).

(** Lines 101-128: the body of the loop over the parameters. *)
Definition merge_param (weights : list Qc)
    (row : list (string * T) * list (string * T) * (string * T))
  : result (string * T) :=
  let '(param_names_and_tensors, old_param_names_and_tensors,
        (global_param_name, global_param)) := row in
  first ← match head param_names_and_tensors with
          | Some p => Ok p
          | None => Raise IndexError
          end;
  let param_name := first.1 in
  _ ← py_assert (bool_decide (param_name = global_param_name));
  _ ← py_assert (bool_decide (length weights = length param_names_and_tensors));
  raw_updates ← for_each (λ p, tsub p.1.2 p.2.2)
                  (zip param_names_and_tensors old_param_names_and_tensors);
  let normalized_update := raw_updates in
  let weighted_updates := zip_with tscale weights normalized_update in
  _ ← py_assert (bool_decide (shape first.2 = shape global_param));
  computed_update ← tstack_sum weighted_updates;
  new_param ← tadd global_param computed_update;
  Ok (param_name,
      if str_contains "bn" param_name then global_param else new_param).

(** Lines 131-133. *)
Definition check_sizes (global_model new_global_model : ModelParams T)
  : result (list ()) :=
  for_each (λ ab : (string * T) * (string * T),
    _ ← py_assert (bool_decide (ab.1.1 = ab.2.1));
    py_assert (bool_decide (shape ab.1.2 = shape ab.2.2)))
    (zip global_model new_global_model).

(** Lines 96-100: what the loop iterates over, the three-way zip of the
    transposed new models, the transposed old models and the global
    model. *)
Definition param_rows (new_models old_models : list (ModelParams T))
    (global_model : ModelParams T)
  : list (list (string * T) * list (string * T) * (string * T)) :=
  zip (zip (zip_star new_models) (zip_star old_models)) global_model.

Definition aggregation_func (clock : nat → Qc)
    (global_model_and_version : ModelParams T * Z)
    (client_updates : list (ClientUpdate T)) : M (ModelParams T) :=
  let '(global_model, version) := global_model_and_version in
  '(client_ids, old_models, new_models, prev_model_versions) ←
    lift (unzip_updates client_updates);
  weights ← compute_weights client_ids;
  _ ← track_clients clock client_ids;
  new_global_model ← lift (for_each (merge_param weights)
    (param_rows new_models old_models global_model));
  _ ← lift (check_sizes global_model new_global_model);
  mret new_global_model.
End Aggregation.

(** ** The client-info loop of get_cmd_line_parser (utils.py, lines 135-157)

    Strings are sequences of ASCII characters.  [float(x)] and the two
    runtime classes of [afl_bench.agents.runtime_model] are not part of the
    two modelled files: the loop is parametrised by them. *)

Inductive runtime_class : Set := InstantRuntime | GaussianRuntime.

(** [CLIENT_TYPE_TO_MODEL[c]]. *)
Definition CLIENT_TYPE_TO_MODEL (c : ascii) : result runtime_class :=
  if decide (c = "i"%char) then Ok InstantRuntime
  else if decide (c = "g"%char) then Ok GaussianRuntime
  else Raise KeyError.

(** [s.split(sep)] for a one-character separator. *)
Fixpoint str_split (sep : ascii) (s : string) : list string :=
  match s with
  | EmptyString => [EmptyString]
  | String c s' =>
      if decide (c = sep) then EmptyString :: str_split sep s'
      else
        match str_split sep s' with
        | piece :: pieces => String c piece :: pieces
        | [] => [String c EmptyString]
        end
  end.

(** [s.index(c)]: position of the first occurrence. *)
Fixpoint str_index (c : ascii) (s : string) : result nat :=
  match s with
  | EmptyString => Raise ValueError
  | String c' s' =>
      if decide (c' = c) then Ok 0 else i ← str_index c s'; Ok (S i)
  end.

(** The regular expression's digit class, on ASCII. *)
Definition is_digit (c : ascii) : bool :=
  let n := nat_of_ascii c in bool_decide (48 ≤ n ≤ 57).

(** The longest run of digits at the front of [s], and what follows it. *)
Fixpoint span_digits (s : string) : string * string :=
  match s with
  | String c s' =>
      if is_digit c then
        let '(ds, rest) := span_digits s' in (String c ds, rest)
      else (EmptyString, s)
  | EmptyString => (EmptyString, EmptyString)
  end.

(** Group 1 of the leftmost match of an opening bracket, one or more
    digits and a closing bracket: what [re.search] of line 142 finds. *)
Fixpoint search_count (s : string) : option string :=
  match s with
  | EmptyString => None
  | String c s' =>
      if decide (c = "["%char) then
        match span_digits s' with
        | (String d ds, String c' _) =>
            if decide (c' = "]"%char) then Some (String d ds)
            else search_count s'
        | _ => search_count s'
        end
      else search_count s'
  end.

(** [int(ds)] on a string of decimal digits. *)
Definition int_of_digits (ds : string) : nat :=
  foldl (λ acc c, 10 * acc + (nat_of_ascii c - 48)) 0 (String.list_ascii_of_string ds).

Section ClientInfo.
Context {F R : Type}.
(** [float(x)] *)
Variable py_float : string → result F.
(** [cls( *params)]: the call of a runtime class on the unpacked
    parameters. *)
Variable construct : runtime_class → list F → result R.

(** Lines 141-157: the body of the loop over [raw_clients]; the result is
    what this token appends to [arguments["client_runtimes"]]. *)
Definition runtimes_of_token (raw_client : string) : result (list R) :=
  let num_of_type :=
    match search_count raw_client with
    | Some ds => int_of_digits ds
    | None => 1
    end in
  c ← match raw_client with
      | String c _ => Ok c
      | EmptyString => Raise IndexError
      end;
  client_runtime_constructor ← CLIENT_TYPE_TO_MODEL c;
  stop ← str_index "["%char raw_client;
  client_params ←
    for_each py_float (str_split "/"%char (String.substring 1 (stop - 1) raw_client));
  for_each (λ _, construct client_runtime_constructor client_params)
           (replicate num_of_type ()).

(** Lines 137-157: all tokens of [--client-info]. *)
Definition client_runtimes (client_info : string) : result (list R) :=
  groups ← for_each runtimes_of_token (str_split ","%char client_info);
  Ok (List.concat groups).
End ClientInfo.

(** ** Runs of the tracker's public methods *)

Inductive op : Type :=
  | OpTrackUpdate (client_id : Z) (now : Qc)
  | OpGetRate (client_id : Z)
  | OpGetRateTotal.

(** The tracker after one call, whether the call returned or raised. *)
Definition run_op (rt : RateTracker) (o : op) : RateTracker :=
  match o with
  | OpTrackUpdate client_id now => (track_update client_id now rt).2
  | OpGetRate client_id => (get_rate client_id rt).2
  | OpGetRateTotal => (get_rate_total rt).2
  end.

Definition run_ops (ops : list op) (rt : RateTracker) : RateTracker :=
  foldl run_op rt ops.

(** ** Notions used in the statements *)

(** What [track_update] leaves in the window [l] of its client (see
    [track_update_window]). *)
Definition tracked (ws : nat) (l : list Qc) (now : Qc) : list Qc :=
  if decide (ws ≤ length l) then
    match l with
    | [] => []
    | _ => removelast l ++ [now]
    end
  else l ++ [now].

(** Every window respects the window size. *)
Definition bounded (rt : RateTracker) : Prop :=
  ∀ k, length (window rt k) ≤ window_size rt.

(** The rates that [get_rate_total] adds up. *)
Definition rates_of_keys (rt : RateTracker) : result (list Qc) :=
  for_each (λ k, rate_of (window rt k)) (map_to_list (client_update rt)).*1.

(** One ratio of line 79, from the window of the client. *)
Definition ratio_of (rate_total : Qc) (l : list Qc) : result Qc :=
  if decide (0 < rate_total)%Qc
  then r ← rate_of l; py_div r rate_total
  else Ok 0%Qc.

(** Lines 76-85 as a function of the windows. *)
Definition weights_of (num_clients : nat) (rt : RateTracker)
    (client_ids : list Z) : result (list Qc) :=
  rate_total ← (get_rate_total rt).1;
  ratios ← for_each (λ k, ratio_of rate_total (window rt k)) client_ids;
  weights ← raw_weights num_clients ratios;
  renormalize weights.

(** Two trackers in which every method finds the same lists. *)
Definition same_windows (rt rt' : RateTracker) : Prop :=
  window_size rt' = window_size rt ∧ ∀ k, window rt' k = window rt k.

(** A parameter that has the name and the shape of a global one. *)
Definition same_signature {T} `{Tensor T} (p g : string * T) : Prop :=
  p.1 = g.1 ∧ shape p.2 = shape g.2.

(** An update whose old and new models have the global model's names and
    shapes, position by position. *)
Definition matches_global {T} `{Tensor T}
    (global_model : ModelParams T) (u : ClientUpdate T) : Prop :=
  Forall2 same_signature (update_new u) global_model ∧
  Forall2 same_signature (update_old u) global_model.

(** ** Concrete rounds on one-dimensional tensors *)

(** A tracker in which client 0 has retained 0, 1, 2 and client 1 has
    retained 0, 2. *)
Definition example_tracker : RateTracker :=
  mkRateTracker 5
    {[ 0%Z := [Qc_of_Z 0; Qc_of_Z 1; Qc_of_Z 2];
       1%Z := [Qc_of_Z 0; Qc_of_Z 2] ]}.

Definition example_global : ModelParams tensor1 :=
  [("conv1.weight"%string, [Qc_of_Z 1; Qc_of_Z 2]);
   ("bn1.running_mean"%string, [Qc_of_Z 5])].

Definition example_update : ClientUpdate tensor1 :=
  (0%Z, example_global,
   [("conv1.weight"%string, [Qc_of_Z 2; Qc_of_Z 4]);
    ("bn1.running_mean"%string, [Qc_of_Z 9])],
   0%Z).

(** An update whose first parameter is named differently from the global
    one, in the old and in the new model, and whose old tensor has another
    shape than the global parameter. *)
Definition foreign_update : ClientUpdate tensor1 :=
  (1%Z,
   [("other"%string, [Qc_of_Z 7]); ("bn1.running_mean"%string, [Qc_of_Z 5])],
   [("wrong"%string, [Qc_of_Z 3; Qc_of_Z 1]);
    ("bn1.running_mean"%string, [Qc_of_Z 9])],
   0%Z).

(** ** Notions used in the further properties *)

(** The timestamps that the [track_update] calls of a run hand to one
    client, in the order of the calls. *)
Definition times_of (client_id : Z) (ops : list op) : list Qc :=
  omap (λ o, match o with
             | OpTrackUpdate k now => if decide (k = client_id) then Some now else None
             | _ => None
             end) ops.

(** What a window of size [ws] holds of the timestamps [ts] it was handed:
    all of them while they fit, then the first [ws - 1] and the latest. *)
Definition retained (ws : nat) (ts : list Qc) : list Qc :=
  if decide (length ts ≤ ws) then ts
  else take (ws - 1) ts ++ drop (length ts - 1) ts.

(** The [track_update] calls of lines 88-89 as a run. *)
Definition round_reports (clock : nat → Qc) (client_ids : list Z) : list op :=
  (λ p : nat * Z, OpTrackUpdate p.2 (clock p.1))
    <$> zip (seq 0 (length client_ids)) client_ids.

(** Further tensor arithmetic: a tensor minus itself is zero, a multiple
    of zero is zero, 1 is neutral, and the sum of a stack of one tensor is
    that tensor. *)
Record TensorAlgebra (T : Type) `{Tensor T} : Prop := {
  tsub_self_zero : ∀ a c : T, tsub a a = Ok c → tzero c;
  tscale_tzero : ∀ w (a : T), tzero a → tzero (tscale w a);
  tscale_one : ∀ a : T, tscale 1%Qc a = a;
  tstack_sum_single : ∀ a : T, tstack_sum [a] = Ok a
}.

(** The rate of a window, 0 where [rate_of] raises. *)
Definition rate_value (l : list Qc) : Qc :=
  match rate_of l with Ok r => r | Raise _ => 0%Qc end.

(** The count that a token asks for: line 142-146. *)
Definition token_count (raw_client : string) : nat :=
  match search_count raw_client with
  | Some ds => int_of_digits ds
  | None => 1
  end.

(** An update that did not change its model. *)
Definition untrained_update : ClientUpdate tensor1 :=
  (1%Z,
   [("conv1.weight"%string, [Qc_of_Z 8; Qc_of_Z 9]);
    ("bn1.running_mean"%string, [Qc_of_Z 7])],
   [("conv1.weight"%string, [Qc_of_Z 8; Qc_of_Z 9]);
    ("bn1.running_mean"%string, [Qc_of_Z 7])],
   3%Z).

(** ** The table of load functions (utils.py, lines 50-62 and 112-133)

    The load functions are imported names; [partial(f, num_remove)] is the
    function with its first argument bound, and [--num-remove] is [None]
    when it is not given. *)

Inductive load_function : Set :=
  | load_cifar10_iid
  | load_cifar10_one_class_per_client
  | load_cifar10_sorted_partition
  | load_cifar10_randomly_remove (num_remove : option Z)
  | load_fashion_mnist_iid
  | load_fashion_mnist_one_class_per_client
  | load_fashion_mnist_sorted_partition
  | load_fashion_mnist_randomly_remove (num_remove : option Z).

(** The [choices] of [--dataset] and of [--data-distribution]. *)
Definition dataset_choices : list string :=
  ["cifar10"; "fashion_mnist"]%string.

Definition data_distribution_choices : list string :=
  ["iid"; "sorted_partition"; "one_class_per_client"; "randomly_remove"]%string.

(** [d[key]] on a dict literal. *)
Fixpoint dict_get {V} (d : list (string * V)) (key : string) : result V :=
  match d with
  | [] => Raise KeyError
  | (k, v) :: d' => if decide (k = key) then Ok v else dict_get d' key
  end.

Definition load_functions (num_remove : option Z)
  : list (string * list (string * load_function)) :=
  [("cifar10",
    [("iid", load_cifar10_iid);
     ("one_class_per_client", load_cifar10_one_class_per_client);
     ("sorted_partition", load_cifar10_sorted_partition);
     ("randomly_remove", load_cifar10_randomly_remove num_remove)]);
   ("fashion_mnist",
    [("iid", load_fashion_mnist_iid);
     ("one_class_per_client", load_fashion_mnist_one_class_per_client);
     ("sorted_partition", load_fashion_mnist_sorted_partition);
     ("randomly_remove", load_fashion_mnist_randomly_remove num_remove)])]%string.

(** Lines 131-133. *)
Definition select_load_function (num_remove : option Z)
    (dataset data_distribution : string) : result load_function :=
  by_distribution ← dict_get (load_functions num_remove) dataset;
  dict_get by_distribution data_distribution.

(** ** Tensors with non-finite entries

    The entries of a torch tensor can be infinite or NaN.  [xnum] adds these
    values to the rationals, with the IEEE rules that matter to the round:
    0 times an infinity is NaN, opposite infinities add to NaN, and NaN is
    absorbing. *)

Inductive xnum : Type :=
  | Fin (q : Qc)
  | PInf
  | NInf
  | NaN.

#[global] Instance xnum_eq_dec : EqDecision xnum.
Proof. solve_decision. Defined.

Definition xneg (x : xnum) : xnum :=
  match x with
  | Fin q => Fin (- q)%Qc
  | PInf => NInf
  | NInf => PInf
  | NaN => NaN
  end.

Definition xadd (x y : xnum) : xnum :=
  match x, y with
  | NaN, _ => NaN
  | _, NaN => NaN
  | Fin a, Fin b => Fin (a + b)%Qc
  | PInf, NInf => NaN
  | NInf, PInf => NaN
  | PInf, _ => PInf
  | _, PInf => PInf
  | NInf, _ => NInf
  | _, NInf => NInf
  end.

Definition xsub (x y : xnum) : xnum := xadd x (xneg y).

(** An infinity of sign [positive] times the finite [a]. *)
Definition xmul_inf (positive : bool) (a : Qc) : xnum :=
  if decide (0 < a)%Qc then (if positive then PInf else NInf)
  else if decide (a < 0)%Qc then (if positive then NInf else PInf)
  else NaN.

Definition xmul (x y : xnum) : xnum :=
  match x, y with
  | NaN, _ => NaN
  | _, NaN => NaN
  | Fin a, Fin b => Fin (a * b)%Qc
  | Fin a, PInf => xmul_inf true a
  | PInf, Fin a => xmul_inf true a
  | Fin a, NInf => xmul_inf false a
  | NInf, Fin a => xmul_inf false a
  | PInf, PInf => PInf
  | NInf, NInf => PInf
  | PInf, NInf => NInf
  | NInf, PInf => NInf
  end.

Definition is_finite (x : xnum) : Prop :=
  match x with Fin _ => True | _ => False end.

(** One-dimensional tensors of such entries, with the same broadcasting
    rule as [tensor1]. *)
Definition tensorx : Type := list xnum.

Definition xbroadcast2 (f : xnum → xnum → xnum) (a b : tensorx) : result tensorx :=
  if decide (length a = length b) then Ok (zip_with f a b)
  else
    match a, b with
    | [x], _ => Ok (map (f x) b)
    | _, [y] => Ok (map (λ x, f x y) a)
    | _, _ => Raise RuntimeError
    end.

Definition tensorx_stack_sum (ts : list tensorx) : result tensorx :=
  match ts with
  | [] => Raise RuntimeError
  | t :: ts' =>
      if bool_decide (Forall (λ u, length u = length t) ts')
      then Ok (foldl (zip_with xadd) t ts')
      else Raise RuntimeError
  end.

#[global] Instance tensorx_ops : Tensor tensorx := {|
  shape v := [length v];
  tsub := xbroadcast2 xsub;
  tscale w := map (xmul (Fin w));
  tstack_sum := tensorx_stack_sum;
  tadd := xbroadcast2 xadd;
  tzero := Forall (λ x, x = Fin 0%Qc)
|}.

(** The tensor arithmetic that the zero-rate round relies on.  Only the
    product with 0 is restricted to [finite] tensors: 0 times a finite
    tensor is zero, and nothing is asked of 0 times any other tensor. *)
Record FiniteTensorLaws (T : Type) `{Tensor T} (finite : T → Prop) : Prop := {
  any_tsub_shape : ∀ a b : T, shape a = shape b →
    ∃ c, tsub a b = Ok c ∧ shape c = shape a;
  finite_tscale_zero : ∀ a : T, finite a → tzero (tscale 0%Qc a);
  any_tscale_shape : ∀ w (a : T), shape (tscale w a) = shape a;
  any_tstack_sum_shape : ∀ (t : T) ts, Forall (λ u, shape u = shape t) ts →
    ∃ z, tstack_sum (t :: ts) = Ok z ∧ shape z = shape t;
  any_tstack_sum_zero : ∀ (ts : list T) z,
    Forall tzero ts → tstack_sum ts = Ok z → tzero z;
  any_tadd_zero : ∀ g z : T, tzero z → shape z = shape g → tadd g z = Ok g }.

(** The difference that line 105 computes for a pair of tensors is finite. *)
Definition finite_delta {T} `{Tensor T} (finite : T → Prop)
    (new old : string * T) : Prop :=
  match tsub new.2 old.2 with Ok d => finite d | Raise _ => True end.

Definition finite_deltas {T} `{Tensor T} (finite : T → Prop)
    (u : ClientUpdate T) : Prop :=
  Forall2 (finite_delta finite) (update_new u) (update_old u).

Definition xglobal : ModelParams tensorx :=
  [("fc.weight"%string, [Fin (Qc_of_Z 1); Fin (Qc_of_Z 2)]);
   ("fc.bias"%string, [PInf])].

Definition xold : ModelParams tensorx :=
  [("fc.weight"%string, [Fin (Qc_of_Z 1); Fin (Qc_of_Z 2)]);
   ("fc.bias"%string, [Fin (Qc_of_Z 0)])].

Definition xupdate : ClientUpdate tensorx :=
  (0%Z, xold,
   [("fc.weight"%string, [Fin (Qc_of_Z 4); Fin (Qc_of_Z 2)]);
    ("fc.bias"%string, [Fin (Qc_of_Z 7)])],
   0%Z).

Definition short_update : ClientUpdate tensor1 :=
  (0%Z,
   [("conv1.weight"%string, [Qc_of_Z 1; Qc_of_Z 2])],
   [("conv1.weight"%string, [Qc_of_Z 2; Qc_of_Z 4])],
   0%Z).

Definition infinite_update : ClientUpdate tensorx :=
  (0%Z, xold,
   [("fc.weight"%string, [PInf; Fin (Qc_of_Z 2)]);
    ("fc.bias"%string, [Fin (Qc_of_Z 7)])],
   0%Z).

(** * Properties *)

(** Closed equations on rationals are decided by evaluation. *)
Ltac by_eval := apply (bool_decide_unpack _); vm_compute; exact I.

(** ** The tracker's windows *)

Lemma window_insert ws m k l k' :
  window (mkRateTracker ws (<[k := l]> m)) k'
  = if decide (k = k') then l else window (mkRateTracker ws m) k'.
Proof.
  unfold window; cbn. rewrite lookup_insert. by case_decide.
Qed.

Lemma window_mk ws rt k : window (mkRateTracker ws (client_update rt)) k = window rt k.
Proof. done. Qed.

Lemma getitem_result rt k : (getitem k rt).1 = Ok (window rt k).
Proof. unfold getitem, window. by destruct (client_update rt !! k). Qed.

Lemma getitem_window rt k k' : window (getitem k rt).2 k' = window rt k'.
Proof.
  unfold getitem. destruct (client_update rt !! k) eqn:E; cbn [snd]; [done|].
  rewrite window_insert, window_mk. case_decide; [subst|done].
  unfold window. by rewrite E.
Qed.

Lemma getitem_window_size rt k : window_size (getitem k rt).2 = window_size rt.
Proof. unfold getitem. by destruct (client_update rt !! k). Qed.

Lemma getitem_present rt k l :
  client_update rt !! k = Some l → getitem k rt = (Ok l, rt).
Proof. unfold getitem. by intros ->. Qed.

(** [getitem] in the form the other methods are unfolded with. *)
Lemma getitem_run rt k :
  ∃ rt', getitem k rt = (Ok (window rt k), rt') ∧
         window_size rt' = window_size rt ∧
         (∀ k', window rt' k' = window rt k') ∧
         (is_Some (client_update rt !! k) → rt' = rt).
Proof.
  exists (getitem k rt).2. split_and!.
  - rewrite <- getitem_result. by destruct (getitem k rt).
  - apply getitem_window_size.
  - apply getitem_window.
  - intros [l Hl]. by rewrite (getitem_present _ _ _ Hl).
Qed.

Lemma track_update_window rt k now k' :
  window (track_update k now rt).2 k'
  = if decide (k = k') then tracked (window_size rt) (window rt k) now
    else window rt k'.
Proof.
  unfold track_update, window_pop, window_append, tracked.
  unfold mbind, mret, M_bind, M_ret, lift.
  destruct (getitem_run rt k) as (rt1 & -> & Hs & Hw & _).
  unfold get_window_size. rewrite Hs.
  destruct (decide (window_size rt ≤ length (window rt k))) as [Hfull|Hroom].
  - destruct (getitem_run rt1 k) as (rt2 & -> & Hs1 & Hw1 & _).
    rewrite (Hw k). destruct (window rt k) as [|x l] eqn:El.
    + cbn. rewrite Hw1, Hw. case_decide; [by subst|done].
    + destruct (last (x :: l)) as [y|] eqn:Ely.
      2:{ by apply last_None in Ely. }
      unfold setitem, getitem; cbn [fst snd client_update window_size].
      rewrite lookup_insert_eq. cbn [fst snd client_update window_size].
      rewrite !window_insert, window_mk, Hw1, Hw.
      case_decide; done.
  - cbn [fst snd].
    destruct (getitem_run rt1 k) as (rt2 & -> & Hs1 & Hw1 & _).
    unfold setitem; cbn [fst snd]. rewrite window_insert, window_mk, Hw1, !Hw. done.
Qed.

Lemma track_update_window_size rt k now :
  window_size (track_update k now rt).2 = window_size rt.
Proof.
  unfold track_update, window_pop, window_append.
  unfold mbind, mret, M_bind, M_ret, lift.
  destruct (getitem_run rt k) as (rt1 & -> & Hs & Hw & _).
  unfold get_window_size. case_decide.
  - destruct (getitem_run rt1 k) as (rt2 & -> & Hs1 & Hw1 & _).
    destruct (last (window rt1 k)); cbn [fst snd]; [|congruence].
    unfold setitem, getitem; cbn [fst snd client_update window_size].
    rewrite lookup_insert_eq. cbn. congruence.
  - cbn [fst snd].
    destruct (getitem_run rt1 k) as (rt2 & -> & Hs1 & Hw1 & _).
    cbn. congruence.
Qed.

(** [track_update] raises only when it pops from an empty list, which
    needs a window size of 0. *)
Lemma track_update_result rt k now :
  (track_update k now rt).1
  = if decide (window_size rt = 0 ∧ window rt k = []) then Raise IndexError
    else Ok ().
Proof.
  unfold track_update, window_pop, window_append.
  unfold mbind, mret, M_bind, M_ret, lift.
  destruct (getitem_run rt k) as (rt1 & -> & Hs & Hw & _).
  unfold get_window_size. rewrite Hs. case_decide as Hfull.
  - destruct (getitem_run rt1 k) as (rt2 & -> & Hs1 & Hw1 & _).
    rewrite Hw. destruct (last (window rt k)) as [y|] eqn:Ely; cbn [fst snd].
    + unfold setitem, getitem; cbn [fst snd client_update window_size].
      rewrite lookup_insert_eq. cbn [fst snd].
      case_decide as Hz; [|done]. destruct Hz as [_ Hz].
      by rewrite Hz in Ely.
    + apply last_None in Ely. rewrite Ely in *. cbn in Hfull.
      case_decide as Hz; [done|]. exfalso. apply Hz. split; [lia|done].
  - cbn [fst snd].
    destruct (getitem_run rt1 k) as (rt2 & -> & Hs1 & Hw1 & _).
    cbn [fst snd setitem]. case_decide as Hz; [|done].
    destruct Hz as [Hz1 Hz2]. rewrite Hz1 in Hfull. lia.
Qed.

(** ** Rates *)

Lemma get_rate_result rt k : (get_rate k rt).1 = rate_of (window rt k).
Proof.
  unfold get_rate, mbind, M_bind, lift.
  by destruct (getitem_run rt k) as (rt1 & -> & _).
Qed.

Lemma get_rate_window rt k k' : window (get_rate k rt).2 k' = window rt k'.
Proof.
  unfold get_rate, mbind, M_bind, lift.
  destruct (getitem_run rt k) as (rt1 & -> & _ & Hw & _).
  by destruct (rate_of (window rt k)).
Qed.

Lemma get_rate_window_size rt k : window_size (get_rate k rt).2 = window_size rt.
Proof.
  unfold get_rate, mbind, M_bind, lift.
  destruct (getitem_run rt k) as (rt1 & -> & Hs & _).
  by destruct (rate_of (window rt k)).
Qed.

(** On a key of the dictionary [get_rate] changes nothing. *)
Lemma get_rate_present rt k :
  is_Some (client_update rt !! k) → get_rate k rt = (rate_of (window rt k), rt).
Proof.
  intros Hk. unfold get_rate, mbind, M_bind, lift.
  destruct (getitem_run rt k) as (rt1 & -> & _ & _ & Hrt).
  rewrite (Hrt Hk). by destruct (rate_of (window rt k)).
Qed.

Lemma for_eachM_get_rate_present rt ks :
  Forall (λ k, is_Some (client_update rt !! k)) ks →
  for_eachM get_rate ks rt = (for_each (λ k, rate_of (window rt k)) ks, rt).
Proof.
  induction 1 as [|k ks Hk _ IH]; [done|].
  cbn [for_eachM for_each]. unfold mbind at 1, M_bind at 1.
  rewrite (get_rate_present _ _ Hk).
  destruct (rate_of (window rt k)) as [r|e]; [|done].
  unfold mbind at 1, M_bind at 1. rewrite IH.
  by destruct (for_each _ ks).
Qed.

Lemma get_rate_total_run rt :
  get_rate_total rt = (py_sum <$> rates_of_keys rt, rt).
Proof.
  unfold get_rate_total, keys, rates_of_keys.
  unfold mbind at 1, M_bind at 1.
  unfold mbind at 1, M_bind at 1.
  rewrite for_eachM_get_rate_present.
  - by destruct (for_each _ _).
  - apply Forall_forall. intros k Hk.
    apply list_elem_of_fmap in Hk as ([k' l] & -> & Hk).
    apply elem_of_map_to_list in Hk. by exists l.
Qed.

Lemma rate_of_short l : length l < 2 → rate_of l = Ok 0%Qc.
Proof. intros Hl. unfold rate_of. by case_decide. Qed.

Lemma rate_of_long l oldest newest :
  2 ≤ length l → head l = Some oldest → last l = Some newest →
  rate_of l = py_div (Qc_of_Z (Z.of_nat (length l))) (newest - oldest)%Qc.
Proof.
  intros Hl Hh Ht. unfold rate_of. case_decide; [lia|]. by rewrite Hh, Ht.
Qed.

(** C7.  [get_rate] returns 0.0 for a client with fewer than two retained
    timestamps; with two or more it returns their count divided by the
    difference between the newest (last appended) and the oldest (first
    retained) one, the division being defined when they differ; and for the
    retained timestamps 0, 1, 2 it returns 1.5. *)
Theorem get_rate_spec (rt : RateTracker) (client_id : Z) :
  (length (window rt client_id) < 2 →
     (get_rate client_id rt).1 = Ok 0%Qc) ∧
  (∀ oldest newest : Qc,
     2 ≤ length (window rt client_id) →
     head (window rt client_id) = Some oldest →
     last (window rt client_id) = Some newest →
     newest ≠ oldest →
     (get_rate client_id rt).1
     = Ok (Qc_of_Z (Z.of_nat (length (window rt client_id)))
           / (newest - oldest))%Qc) ∧
  (window rt client_id = [Qc_of_Z 0; Qc_of_Z 1; Qc_of_Z 2] →
     (get_rate client_id rt).1 = Ok (Q2Qc 1.5)).
Proof.
  rewrite get_rate_result. split_and!.
  - apply rate_of_short.
  - intros oldest newest Hl Hh Ht Hne.
    rewrite (rate_of_long _ _ _ Hl Hh Ht). unfold py_div.
    case_decide as Hz; [|done]. exfalso. apply Hne.
    apply (Qcplus_inj_l (- oldest)%Qc). simpl.
    rewrite Qcplus_opp_r. exact Hz.
  - intros ->. by_eval.
Qed.

Lemma get_rate_spec_witness :
  (get_rate 7 (RateTracker_init 5)).1 = Ok 0%Qc ∧
  (get_rate 0 (mkRateTracker 5 {[ 0%Z := [Qc_of_Z 10; Qc_of_Z 12; Qc_of_Z 16] ]})).1
  = Ok (Qc_of_Z (Z.of_nat (length (window
          (mkRateTracker 5 {[ 0%Z := [Qc_of_Z 10; Qc_of_Z 12; Qc_of_Z 16] ]}) 0)))
        / (Qc_of_Z 16 - Qc_of_Z 10))%Qc ∧
  (get_rate 0 (mkRateTracker 5 {[ 0%Z := [Qc_of_Z 0; Qc_of_Z 1; Qc_of_Z 2] ]})).1
  = Ok (Q2Qc 1.5).
Proof.
  split_and!.
  - apply (proj1 (get_rate_spec (RateTracker_init 5) 7)). vm_compute. lia.
  - apply (proj1 (proj2 (get_rate_spec
             (mkRateTracker 5 {[ 0%Z := [Qc_of_Z 10; Qc_of_Z 12; Qc_of_Z 16] ]}) 0))
             (Qc_of_Z 10) (Qc_of_Z 16)).
    + vm_compute. lia.
    + reflexivity.
    + reflexivity.
    + discriminate.
  - apply (proj2 (proj2 (get_rate_spec
             (mkRateTracker 5 {[ 0%Z := [Qc_of_Z 0; Qc_of_Z 1; Qc_of_Z 2] ]}) 0))).
    reflexivity.
Defined.

(** ** Eviction *)

(** On a full, non-empty window [track_update] drops the last element,
    which is the timestamp appended most recently, and keeps the first. *)
Lemma track_update_full rt k now :
  window rt k ≠ [] → window_size rt ≤ length (window rt k) →
  window (track_update k now rt).2 k = removelast (window rt k) ++ [now].
Proof.
  intros Hne Hfull. rewrite track_update_window. case_decide; [|done].
  unfold tracked. case_decide; [|lia]. by destruct (window rt k).
Qed.

(** C1 (the code departs from the claim).  With window size 5 and the
    retained timestamps 1, 2, 3, 4, 5, [track_update] at time 6 leaves
    1, 2, 3, 4, 6: the newest retained timestamp 5 was evicted and the
    oldest, 1, kept, so the window is not the sliding window 2, 3, 4, 5, 6 of
    the five most recent reports. *)
Theorem track_update_evicts_newest :
  let rt := mkRateTracker 5 {[ 0%Z := Qc_of_Z <$> [1; 2; 3; 4; 5]%Z ]} in
  window (track_update 0 (Qc_of_Z 6) rt).2 0 = Qc_of_Z <$> [1; 2; 3; 4; 6]%Z ∧
  window (track_update 0 (Qc_of_Z 6) rt).2 0 ≠ Qc_of_Z <$> [2; 3; 4; 5; 6]%Z.
Proof.
  cbv zeta. split.
  - by_eval.
  - by_eval.
Qed.

(** ** The window bound *)

Lemma removelast_length (l : list Qc) : length (removelast l) = pred (length l).
Proof.
  induction l as [|x [|y l] IH]; [done..|].
  change (removelast (x :: y :: l)) with (x :: removelast (y :: l)).
  cbn [length]. rewrite IH. done.
Qed.

Lemma tracked_length ws l now :
  length l ≤ ws → length (tracked ws l now) ≤ ws.
Proof.
  intros Hl. unfold tracked. case_decide as Hfull.
  - destruct l as [|x l]; [simpl; lia|].
    rewrite length_app, removelast_length. simpl in *. lia.
  - rewrite length_app. simpl. lia.
Qed.

Lemma track_update_bounded rt k now :
  bounded rt → bounded (track_update k now rt).2.
Proof.
  intros Hb k'. rewrite track_update_window, track_update_window_size.
  case_decide; [|apply Hb]. apply tracked_length, Hb.
Qed.

Lemma get_rate_bounded rt k : bounded rt → bounded (get_rate k rt).2.
Proof.
  intros Hb k'. rewrite get_rate_window, get_rate_window_size. apply Hb.
Qed.

Lemma run_op_bounded rt o : bounded rt → bounded (run_op rt o).
Proof.
  destruct o as [k now|k|]; cbn [run_op].
  - apply track_update_bounded.
  - apply get_rate_bounded.
  - by rewrite get_rate_total_run.
Qed.

Lemma run_ops_bounded ops rt : bounded rt → bounded (run_ops ops rt).
Proof.
  unfold run_ops. revert rt.
  induction ops as [|o ops IH]; intros rt Hb; [done|].
  cbn [foldl]. by apply IH, run_op_bounded.
Qed.

Lemma run_op_window_size rt o : window_size (run_op rt o) = window_size rt.
Proof.
  destruct o as [k now|k|]; cbn [run_op].
  - apply track_update_window_size.
  - apply get_rate_window_size.
  - by rewrite get_rate_total_run.
Qed.

Lemma run_ops_window_size ops rt : window_size (run_ops ops rt) = window_size rt.
Proof.
  unfold run_ops. revert rt.
  induction ops as [|o ops IH]; intros rt; [done|].
  cbn [foldl]. by rewrite IH, run_op_window_size.
Qed.

Lemma init_bounded ws : bounded (RateTracker_init ws).
Proof. intros k. unfold window; cbn. rewrite lookup_empty. cbn. lia. Qed.

(** C9.  After any sequence of [track_update], [get_rate] and
    [get_rate_total] calls on a new tracker, whether they return or raise,
    no client has more than [window_size] retained timestamps. *)
Theorem window_never_exceeds_window_size
    (ws : nat) (ops : list op) (client_id : Z) :
  length (window (run_ops ops (RateTracker_init ws)) client_id) ≤ ws.
Proof.
  pose proof (run_ops_bounded ops _ (init_bounded ws) client_id) as Hb.
  by rewrite run_ops_window_size in Hb.
Qed.

(** ** Division by zero in [get_rate] *)

Lemma rate_of_equal_ends l t :
  2 ≤ length l → head l = Some t → last l = Some t →
  rate_of l = Raise ZeroDivisionError.
Proof.
  intros Hl Hh Ht. rewrite (rate_of_long _ _ _ Hl Hh Ht).
  unfold py_div, Qcminus. rewrite Qcplus_opp_r. by case_decide.
Qed.

(** [rate_of] raises nothing but [ZeroDivisionError]. *)
Lemma rate_of_raise l e : rate_of l = Raise e → e = ZeroDivisionError.
Proof.
  unfold rate_of. case_decide as Hl; [done|].
  destruct l as [|x l]; [simpl in Hl; lia|].
  destruct (last (x :: l)) eqn:El; [|by apply last_None in El].
  cbn [head]. unfold py_div. case_decide; congruence.
Qed.

Lemma for_each_raise {A B} (f : A → result B) xs x e :
  x ∈ xs → f x = Raise e → (∀ y e', f y = Raise e' → e' = e) →
  for_each f xs = Raise e.
Proof.
  intros Hx Hfx Hall. induction xs as [|y xs IH]; [by apply elem_of_nil in Hx|].
  cbn [for_each]. destruct (f y) as [b|e'] eqn:Ey.
  - apply elem_of_cons in Hx as [->|Hx]; [congruence|].
    cbn. by rewrite (IH Hx).
  - cbn. f_equal. eauto.
Qed.

Lemma get_rate_total_raises rt k :
  rate_of (window rt k) = Raise ZeroDivisionError →
  (get_rate_total rt).1 = Raise ZeroDivisionError.
Proof.
  intros Hk. rewrite get_rate_total_run. cbn [fst]. unfold rates_of_keys.
  rewrite (for_each_raise _ _ k ZeroDivisionError); [done| |done|].
  - unfold window in Hk.
    destruct (client_update rt !! k) as [l|] eqn:El; [|done].
    apply list_elem_of_fmap. exists (k, l). split; [done|].
    by apply elem_of_map_to_list.
  - intros y e'. apply rate_of_raise.
Qed.

(** C10.  [get_rate] divides by (newest - oldest) without a guard: on a
    window of two or more timestamps that are all equal it raises
    [ZeroDivisionError]; and such a window is reached on the module's own
    tracker by two [track_update] calls of one client during which
    [time.time()] returns the same value, after which the public
    [get_rate] and [get_rate_total] both raise. *)
Theorem get_rate_division_by_zero :
  (∀ (rt : RateTracker) (client_id : Z) (t : Qc) (l : list Qc),
     window rt client_id = t :: l → l ≠ [] → Forall (λ x, x = t) l →
     (get_rate client_id rt).1 = Raise ZeroDivisionError) ∧
  (∀ (client_id : Z) (t : Qc),
     let rt := run_ops [OpTrackUpdate client_id t; OpTrackUpdate client_id t]
                       rate_tracker in
     window rt client_id = [t; t] ∧
     (get_rate client_id rt).1 = Raise ZeroDivisionError ∧
     (get_rate_total rt).1 = Raise ZeroDivisionError).
Proof.
  split.
  - intros rt client_id t l Hw Hne Hall.
    rewrite get_rate_result, Hw.
    apply (rate_of_equal_ends _ t); [destruct l; [done|simpl; lia]|done|].
    clear Hw. induction Hall as [|x l -> _ IH]; [done|].
    destruct l as [|y l]; [done|]. by apply IH.
  - intros client_id t rt.
    assert (window rt client_id = [t; t]) as Hw.
    { unfold rt, run_ops. cbn [foldl run_op].
      rewrite track_update_window, track_update_window_size.
      rewrite decide_True by done.
      rewrite track_update_window. rewrite decide_True by done.
      unfold rate_tracker, RateTracker_init, window. cbn.
      rewrite lookup_empty. reflexivity. }
    assert (rate_of (window rt client_id) = Raise ZeroDivisionError) as Hr.
    { rewrite Hw. by apply (rate_of_equal_ends _ t). }
    split_and!; [done| |].
    + by rewrite get_rate_result.
    + by apply (get_rate_total_raises _ client_id).
Qed.

(** The same through [aggregation_func] alone: a round in which one client
    reports twice while the clock stands still leaves a tracker on which the
    next round raises [ZeroDivisionError]. *)
Lemma round_after_equal_timestamps_raises :
  let rt := (aggregation_func 2 (λ _, Qc_of_Z 3) (example_global, 0%Z)
                              [example_update; example_update] rate_tracker).2 in
  (aggregation_func 2 (λ k, Qc_of_Z (4 + Z.of_nat k)) (example_global, 0%Z)
                    [example_update] rt).1
  = Raise ZeroDivisionError.
Proof. by_eval. Qed.

Lemma get_rate_division_by_zero_witness :
  (get_rate 3 (mkRateTracker 5 {[ 3%Z := [Qc_of_Z 8; Qc_of_Z 8; Qc_of_Z 8] ]})).1
  = Raise ZeroDivisionError.
Proof.
  apply (proj1 get_rate_division_by_zero _ 3%Z (Qc_of_Z 8) [Qc_of_Z 8; Qc_of_Z 8]).
  - reflexivity.
  - discriminate.
  - repeat constructor.
Defined.

(** ** Loops *)

Lemma for_each_Forall2 {A B} (f : A → result B) xs ys :
  for_each f xs = Ok ys ↔ Forall2 (λ x y, f x = Ok y) xs ys.
Proof.
  revert ys. induction xs as [|x xs IH]; intros ys; cbn [for_each].
  - split; [intros [= <-]; constructor|by inversion 1].
  - destruct (f x) as [y|e] eqn:Ey; cbn.
    + destruct (for_each f xs) as [ys'|e] eqn:Eys; cbn.
      * split.
        -- intros [= <-]. constructor; [done|by apply IH].
        -- inversion 1 as [|? y' ? ys'' Hy Hys]; subst.
           apply IH in Hys. congruence.
      * split; [done|]. inversion 1 as [|? y' ? ys'' Hy Hys]; subst.
        by apply IH in Hys.
    + split; [done|]. inversion 1; congruence.
Qed.

Lemma for_each_ext {A B} (f g : A → result B) xs :
  (∀ x, x ∈ xs → f x = g x) → for_each f xs = for_each g xs.
Proof.
  induction xs as [|x xs IH]; intros Hfg; [done|].
  cbn [for_each]. rewrite Hfg by left. rewrite IH; [done|].
  intros y Hy. apply Hfg. by right.
Qed.

Lemma for_each_total {A B} (f : A → B) xs :
  for_each (λ x, Ok (f x)) xs = Ok (f <$> xs).
Proof. induction xs as [|x xs IH]; [done|]. cbn. by rewrite IH. Qed.

(** ** Sums *)

Lemma foldl_Qcplus a xs : foldl Qcplus a xs = (a + py_sum xs)%Qc.
Proof.
  unfold py_sum. revert a. induction xs as [|x xs IH]; intros a; cbn [foldl].
  - by rewrite Qcplus_0_r.
  - rewrite IH, (IH (0 + x)%Qc), Qcplus_0_l, Qcplus_assoc. done.
Qed.

Lemma py_sum_cons x xs : py_sum (x :: xs) = (x + py_sum xs)%Qc.
Proof. unfold py_sum at 1. cbn [foldl]. by rewrite foldl_Qcplus, Qcplus_0_l. Qed.

Lemma py_sum_scale c xs : py_sum ((λ x, x * c)%Qc <$> xs) = (py_sum xs * c)%Qc.
Proof.
  induction xs as [|x xs IH]; [by rewrite Qcmult_0_l|].
  rewrite fmap_cons, !py_sum_cons, IH. ring.
Qed.

Lemma py_sum_zeros n : py_sum (replicate n 0%Qc) = 0%Qc.
Proof.
  induction n as [|n IH]; [done|].
  cbn [replicate]. by rewrite py_sum_cons, IH.
Qed.

(** ** Weights (lines 76-85) *)

Lemma get_rate_total_ok rt total :
  (get_rate_total rt).1 = Ok total → ∀ k, ∃ r, rate_of (window rt k) = Ok r.
Proof.
  rewrite get_rate_total_run. cbn [fst]. unfold rates_of_keys.
  destruct (for_each _ _) as [rs|e] eqn:Ers; [|done]. intros _ k.
  unfold window at 1. destruct (client_update rt !! k) as [l|] eqn:El.
  - apply for_each_Forall2 in Ers.
    assert (k ∈ (map_to_list (client_update rt)).*1) as Hk.
    { apply list_elem_of_fmap. exists (k, l). split; [done|].
      by apply elem_of_map_to_list. }
    apply list_elem_of_lookup in Hk as [i Hi].
    destruct (Forall2_lookup_l _ _ _ _ _ Ers Hi) as (r & _ & Hr).
    exists r. rewrite <- Hr. unfold window. by rewrite El.
  - by exists 0%Qc.
Qed.

Lemma same_windows_refl rt : same_windows rt rt.
Proof. done. Qed.

Lemma same_windows_trans rt1 rt2 rt3 :
  same_windows rt1 rt2 → same_windows rt2 rt3 → same_windows rt1 rt3.
Proof.
  intros [Hs1 Hw1] [Hs2 Hw2]. split; [congruence|].
  intros k. by rewrite Hw2, Hw1.
Qed.

(** A loop over calls that only read the windows is the pure loop over
    what they read. *)
Lemma for_eachM_reading {A B} (f : A → M B) (g : RateTracker → A → result B) :
  (∀ rt x, ∃ rt', f x rt = (g rt x, rt') ∧ same_windows rt rt') →
  (∀ rt rt' x, same_windows rt rt' → g rt' x = g rt x) →
  ∀ xs rt, ∃ rt', for_eachM f xs rt = (for_each (g rt) xs, rt') ∧
                  same_windows rt rt'.
Proof.
  intros Hf Hg xs. induction xs as [|x xs IH]; intros rt.
  - exists rt. split; [done|apply same_windows_refl].
  - cbn [for_eachM for_each]. unfold mbind at 1, M_bind at 1.
    destruct (Hf rt x) as (rt1 & -> & H1).
    destruct (g rt x) as [y|e]; [|by exists rt1].
    unfold mbind at 1, M_bind at 1.
    destruct (IH rt1) as (rt2 & -> & H2).
    rewrite (for_each_ext (g rt1) (g rt)) by (intros; by apply Hg).
    exists rt2. split; [|by eapply same_windows_trans].
    by destruct (for_each (g rt) xs).
Qed.

Lemma get_rate_run rt k :
  ∃ rt', get_rate k rt = (rate_of (window rt k), rt') ∧ same_windows rt rt'.
Proof.
  exists (get_rate k rt).2. split.
  - rewrite <- get_rate_result. by destruct (get_rate k rt).
  - split; [apply get_rate_window_size|apply get_rate_window].
Qed.

Lemma rate_ratios_run rate_total client_ids rt :
  ∃ rt', rate_ratios rate_total client_ids rt
         = (for_each (λ k, ratio_of rate_total (window rt k)) client_ids, rt') ∧
         same_windows rt rt'.
Proof.
  unfold rate_ratios.
  apply (for_eachM_reading _ (λ rt k, ratio_of rate_total (window rt k))).
  - clear. intros rt k. unfold ratio_of. case_decide.
    + unfold mbind at 1, M_bind at 1.
      destruct (get_rate_run rt k) as (rt1 & -> & H1).
      exists rt1. split; [|done]. by destruct (rate_of (window rt k)).
    + exists rt. split; [done|apply same_windows_refl].
  - clear. intros rt rt' k [_ Hw]. by rewrite Hw.
Qed.

Lemma Qc_of_nat_nonzero n : 0 < n → Qc_of_Z (Z.of_nat n) ≠ 0%Qc.
Proof.
  intros Hn Hz. apply (f_equal (λ q : Qc, Qnum (this q))) in Hz.
  change (Z.of_nat n = 0%Z) in Hz. lia.
Qed.

Lemma raw_weights_run num_clients ratios :
  0 < num_clients →
  raw_weights num_clients ratios
  = Ok ((λ ratio, if decide (0 < ratio)%Qc
                  then (1 / Qc_of_Z (Z.of_nat num_clients))%Qc else 0%Qc)
        <$> ratios).
Proof.
  intros Hn. unfold raw_weights. rewrite <- for_each_total.
  apply for_each_ext. intros ratio _. case_decide; [|done].
  unfold py_div. case_decide as Hz; [|done].
  by apply Qc_of_nat_nonzero in Hz.
Qed.

Lemma raw_weights_zeros num_clients n :
  raw_weights num_clients (replicate n 0%Qc) = Ok (replicate n 0%Qc).
Proof.
  unfold raw_weights. induction n as [|n IH]; [done|].
  cbn [replicate for_each]. rewrite IH. done.
Qed.

Lemma renormalize_run weights :
  renormalize weights
  = Ok ((λ w, if decide (0 < py_sum weights)%Qc
              then (w / py_sum weights)%Qc else 0%Qc) <$> weights).
Proof.
  unfold renormalize. rewrite <- for_each_total.
  apply for_each_ext. intros w _. case_decide as Hpos; [|done].
  unfold py_div. case_decide as Hz; [|done].
  rewrite Hz in Hpos. by apply Qclt_not_eq in Hpos.
Qed.

Lemma renormalize_zeros n :
  renormalize (replicate n 0%Qc) = Ok (replicate n 0%Qc).
Proof.
  rewrite renormalize_run, py_sum_zeros. f_equal.
  induction n as [|n IH]; [done|]. cbn. by rewrite IH.
Qed.

Lemma renormalize_sum weights ws :
  (0 < py_sum weights)%Qc → renormalize weights = Ok ws → py_sum ws = 1%Qc.
Proof.
  intros Hpos. rewrite renormalize_run. intros [= <-].
  erewrite (list_fmap_ext _ (λ w, w * / py_sum weights)%Qc).
  2:{ intros i w _. by rewrite decide_True. }
  rewrite py_sum_scale. apply Qcmult_inv_r.
  intros Hz. rewrite Hz in Hpos. by apply Qclt_not_eq in Hpos.
Qed.

Lemma compute_weights_run num_clients client_ids rt :
  ∃ rt', compute_weights num_clients client_ids rt
         = (weights_of num_clients rt client_ids, rt') ∧
         same_windows rt rt'.
Proof.
  unfold compute_weights, weights_of.
  unfold mbind at 1, M_bind at 1. rewrite get_rate_total_run. cbn [fst].
  destruct (py_sum <$> rates_of_keys rt) as [total|e]; cbn.
  2:{ exists rt. split; [done|apply same_windows_refl]. }
  unfold mbind at 1, M_bind at 1.
  destruct (rate_ratios_run total client_ids rt) as (rt1 & -> & H1).
  exists rt1. split; [|done].
  destruct (for_each _ client_ids) as [ratios|e]; cbn; [|done].
  unfold mbind at 1, M_bind at 1, lift.
  by destruct (raw_weights num_clients ratios).
Qed.

Lemma ratio_of_ok rate_total l r :
  rate_of l = Ok r →
  ratio_of rate_total l
  = Ok (if decide (0 < rate_total)%Qc then (r / rate_total)%Qc else 0%Qc).
Proof.
  intros Hr. unfold ratio_of. case_decide as Hpos; [|done].
  rewrite Hr. cbn. unfold py_div. case_decide as Hz; [|done].
  rewrite Hz in Hpos. by apply Qclt_not_eq in Hpos.
Qed.

Lemma ratios_ok rt rate_total client_ids :
  (get_rate_total rt).1 = Ok rate_total →
  ∃ ratios,
    for_each (λ k, ratio_of rate_total (window rt k)) client_ids = Ok ratios ∧
    Forall2 (λ k ratio, ∃ r, (get_rate k rt).1 = Ok r ∧
               ratio = if decide (0 < rate_total)%Qc
                       then (r / rate_total)%Qc else 0%Qc)
            client_ids ratios.
Proof.
  intros Htot. pose proof (get_rate_total_ok _ _ Htot) as Hall.
  induction client_ids as [|k ks (ratios & IH1 & IH2)].
  - exists []. split; [done|constructor].
  - destruct (Hall k) as [r Hr].
    eexists (_ :: ratios). cbn [for_each].
    rewrite (ratio_of_ok _ _ _ Hr), IH1. split; [done|].
    constructor; [|done]. exists r. by rewrite get_rate_result.
Qed.

(** C5.  In a round whose rates can be computed and with at least one
    worker configured, the ratio of every update's client is its rate over
    the total (0 when the total is not positive), its raw weight is
    [1/num_clients] when that ratio is strictly positive and 0 otherwise,
    whatever the size of the ratio, and when the raw weights have a strictly
    positive total the weights the round uses sum to exactly 1, hence to 1
    within 1e-6. *)
Theorem weights_equal_share_and_normalised
    (num_clients : nat) (rt : RateTracker) (client_ids : list Z)
    (rate_total : Qc) :
  0 < num_clients →
  (get_rate_total rt).1 = Ok rate_total →
  ∃ ratios raw weights : list Qc,
    (rate_ratios rate_total client_ids rt).1 = Ok ratios ∧
    Forall2 (λ k ratio, ∃ r, (get_rate k rt).1 = Ok r ∧
               ratio = if decide (0 < rate_total)%Qc
                       then (r / rate_total)%Qc else 0%Qc)
            client_ids ratios ∧
    raw_weights num_clients ratios = Ok raw ∧
    Forall2 (λ ratio w,
               w = if decide (0 < ratio)%Qc
                   then (1 / Qc_of_Z (Z.of_nat num_clients))%Qc else 0%Qc)
            ratios raw ∧
    renormalize raw = Ok weights ∧
    (compute_weights num_clients client_ids rt).1 = Ok weights ∧
    ((0 < py_sum raw)%Qc →
       py_sum weights = 1%Qc ∧
       (1 - Q2Qc 1e-6 ≤ py_sum weights ≤ 1 + Q2Qc 1e-6)%Qc).
Proof.
  intros Hn Htot.
  destruct (ratios_ok rt rate_total client_ids Htot) as (ratios & Hratios & Hr2).
  pose proof (raw_weights_run num_clients ratios Hn) as Hraw.
  pose proof (renormalize_run
    ((λ ratio, if decide (0 < ratio)%Qc
               then (1 / Qc_of_Z (Z.of_nat num_clients))%Qc else 0%Qc)
     <$> ratios)) as Hnorm.
  eexists ratios, _, _. split_and!.
  - destruct (rate_ratios_run rate_total client_ids rt) as (rt1 & -> & _).
    exact Hratios.
  - exact Hr2.
  - exact Hraw.
  - apply Forall2_fmap_r, Forall_Forall2_diag, Forall_forall. done.
  - exact Hnorm.
  - destruct (compute_weights_run num_clients client_ids rt) as (rt1 & -> & _).
    cbn [fst]. unfold weights_of. rewrite Htot. cbn.
    rewrite Hratios. cbn. rewrite Hraw. cbn. exact Hnorm.
  - intros Hpos. pose proof (renormalize_sum _ _ Hpos Hnorm) as ->.
    split; [done|]. split; by_eval.
Qed.

Lemma weights_equal_share_and_normalised_witness :
  let rt := mkRateTracker 5
              {[ 0%Z := [Qc_of_Z 0; Qc_of_Z 1; Qc_of_Z 2];
                 1%Z := [Qc_of_Z 0; Qc_of_Z 2] ]} in
  ∃ ratios raw weights : list Qc,
    (rate_ratios (Q2Qc 2.5) [0; 1; 2]%Z rt).1 = Ok ratios ∧
    Forall2 (λ k ratio, ∃ r, (get_rate k rt).1 = Ok r ∧
               ratio = if decide (0 < Q2Qc 2.5)%Qc
                       then (r / Q2Qc 2.5)%Qc else 0%Qc)
            [0; 1; 2]%Z ratios ∧
    raw_weights 3 ratios = Ok raw ∧
    Forall2 (λ ratio w,
               w = if decide (0 < ratio)%Qc
                   then (1 / Qc_of_Z (Z.of_nat 3))%Qc else 0%Qc)
            ratios raw ∧
    renormalize raw = Ok weights ∧
    (compute_weights 3 [0; 1; 2]%Z rt).1 = Ok weights ∧
    ((0 < py_sum raw)%Qc →
       py_sum weights = 1%Qc ∧
       (1 - Q2Qc 1e-6 ≤ py_sum weights ≤ 1 + Q2Qc 1e-6)%Qc).
Proof.
  cbv zeta.
  apply (weights_equal_share_and_normalised 3
           (mkRateTracker 5
              {[ 0%Z := [Qc_of_Z 0; Qc_of_Z 1; Qc_of_Z 2];
                 1%Z := [Qc_of_Z 0; Qc_of_Z 2] ]})
           [0; 1; 2]%Z (Q2Qc 2.5)).
  - lia.
  - by_eval.
Defined.

(** ** The empty batch *)

Section EmptyBatch.
Context {T : Type} `{Tensor T}.

(** C3 (as the code behaves).  On an empty batch [aggregation_func]
    raises [ValueError] at the unpacking of lines 71-73, before any rate is
    read: it returns no parameter sequence and leaves the tracker as it
    was. *)
Theorem aggregation_func_empty_batch
    (num_clients : nat) (clock : nat → Qc) (global_model : ModelParams T)
    (version : Z) (rt : RateTracker) :
  aggregation_func num_clients clock (global_model, version) [] rt
  = (Raise ValueError, rt).
Proof. reflexivity. Qed.
End EmptyBatch.

(** C3 fails as stated: on the module's new tracker, an empty batch for a
    one-parameter global model does not return that model. *)
Lemma empty_batch_is_not_a_noop :
  let global_model : ModelParams tensor1 := [("fc.weight"%string, [Qc_of_Z 1; Qc_of_Z 2])] in
  (aggregation_func (T:=tensor1) 1 (λ _, Qc_of_Z 0) (global_model, 0%Z) []
                    rate_tracker).1
  ≠ Ok global_model.
Proof. cbv zeta. discriminate. Qed.

(** ** Substrings *)

Lemma prefix_spec (a b : string) :
  String.prefix a b = true ↔ ∃ post, b = String.append a post.
Proof.
  revert b. induction a as [|x a IH]; intros b; simpl.
  - split; [intros _; by exists b|by destruct b].
  - destruct b as [|y b]; simpl.
    + split; [done|]. by intros [post ?].
    + destruct (Ascii.ascii_dec x y) as [->|Hne].
      * rewrite IH. split; intros [post Hp]; exists post.
        -- by rewrite Hp.
        -- by injection Hp.
      * split; [done|]. intros [post [= ? _]]. done.
Qed.

(** [str_contains sub s] holds exactly when [sub] occurs in [s]. *)
Lemma str_contains_spec (sub s : string) :
  str_contains sub s = true ↔
  ∃ pre post, s = String.append pre (String.append sub post).
Proof.
  induction s as [|c s IH]; cbn [str_contains];
    rewrite orb_true_iff, prefix_spec.
  - split.
    + intros [[post Hp]|?]; [|done]. by exists EmptyString, post.
    + intros (pre & post & Hs). left. exists post.
      destruct pre; [done|discriminate].
  - rewrite IH. split.
    + intros [[post Hp]|(pre & post & Hs)].
      * by exists EmptyString, post.
      * exists (String c pre), post. simpl. by rewrite Hs.
    + intros ([|c' pre] & post & Hs); simpl in Hs.
      * left. by exists post.
      * right. injection Hs as -> Hs. by exists pre, post.
Qed.

(** ** Transposition *)

Lemma zip_star_lookup {A} (xss : list (list A)) i :
  xss ≠ [] → zip_star xss !! i = mapM (λ xs, xs !! i) xss.
Proof.
  induction xss as [|xs xss IH]; [done|]. intros _.
  destruct xss as [|ys yss].
  - cbn [zip_star mapM]. rewrite list_lookup_fmap.
    by destruct (xs !! i).
  - change (zip_star (xs :: ys :: yss))
      with (zip_with cons xs (zip_star (ys :: yss))).
    rewrite lookup_zip_with, IH by done.
    change (mapM (λ xs0, xs0 !! i) (xs :: ys :: yss))
      with (x ← xs !! i; k ← mapM (λ xs0, xs0 !! i) (ys :: yss); mret (x :: k)).
    done.
Qed.

Lemma zip_star_lookup_Some {A} (xss : list (list A)) i row :
  xss ≠ [] →
  zip_star xss !! i = Some row ↔ Forall2 (λ xs x, xs !! i = Some x) xss row.
Proof. intros Hne. rewrite zip_star_lookup by done. apply mapM_Some. Qed.

Lemma zip_star_length {A} (xss : list (list A)) n :
  xss ≠ [] → Forall (λ xs, length xs = n) xss → length (zip_star xss) = n.
Proof.
  induction xss as [|xs xss IH]; [done|]. intros _ Hall.
  apply Forall_cons in Hall as [Hxs Hall].
  destruct xss as [|ys yss].
  - cbn [zip_star]. by rewrite length_fmap.
  - change (zip_star (xs :: ys :: yss))
      with (zip_with cons xs (zip_star (ys :: yss))).
    rewrite length_zip_with, IH by done. lia.
Qed.

(** ** The aggregation round *)

Section AggregationProperties.
Context {T : Type} `{Tensor T}.
Variable num_clients : nat.

Implicit Types (global_model out : ModelParams T).
Implicit Types (client_updates : list (ClientUpdate T)).

(** The round after its unpacking, on a batch that is not empty. *)
Lemma aggregation_func_run clock global_model version client_updates rt :
  client_updates ≠ [] →
  aggregation_func num_clients clock (global_model, version) client_updates rt
  = (weights ← compute_weights num_clients (update_id <$> client_updates);
     _ ← track_clients clock (update_id <$> client_updates);
     new_global_model ← lift (for_each (merge_param weights)
       (param_rows (update_new <$> client_updates)
                   (update_old <$> client_updates) global_model));
     _ ← lift (check_sizes global_model new_global_model);
     mret new_global_model) rt.
Proof. by destruct client_updates. Qed.

(** What a round that returns has gone through. *)
Lemma aggregation_func_Ok clock global_model version client_updates rt out :
  (aggregation_func num_clients clock (global_model, version)
                    client_updates rt).1 = Ok out →
  client_updates ≠ [] ∧
  ∃ weights,
    (compute_weights num_clients (update_id <$> client_updates) rt).1
    = Ok weights ∧
    for_each (merge_param weights)
      (param_rows (update_new <$> client_updates)
                  (update_old <$> client_updates) global_model) = Ok out ∧
    ∃ units, check_sizes global_model out = Ok units.
Proof.
  destruct (decide (client_updates = [])) as [->|Hne]; [done|].
  rewrite aggregation_func_run by done. intros Hout. split; [done|].
  unfold mbind at 1, M_bind at 1 in Hout.
  destruct (compute_weights _ _ rt) as [[weights|e] rt1]; [|done].
  exists weights. split; [done|].
  unfold mbind at 1, M_bind at 1 in Hout.
  destruct (track_clients _ _ rt1) as [[u|e] rt2]; [|done].
  unfold mbind at 1, M_bind at 1, lift in Hout.
  destruct (for_each (merge_param weights) _) as [new|e]; [|done].
  unfold mbind at 1, M_bind at 1, lift in Hout.
  destruct (check_sizes global_model new) as [units|e] eqn:Ech; [|done].
  cbn in Hout. injection Hout as <-. eauto.
Qed.

Lemma py_assert_Ok c u : py_assert c = Ok u → c = true.
Proof. by destruct c. Qed.

(** What one parameter that the loop body returns has gone through. *)
Lemma merge_param_Ok weights row_new row_old gname gparam name value :
  merge_param weights (row_new, row_old, (gname, gparam)) = Ok (name, value) →
  ∃ first deltas merged new_param,
    head row_new = Some first ∧
    first.1 = gname ∧ name = gname ∧
    shape first.2 = shape gparam ∧
    length weights = length row_new ∧
    for_each (λ p, tsub p.1.2 p.2.2) (zip row_new row_old) = Ok deltas ∧
    tstack_sum (zip_with tscale weights deltas) = Ok merged ∧
    tadd gparam merged = Ok new_param ∧
    value = if str_contains "bn" name then gparam else new_param.
Proof.
  unfold merge_param. destruct (head row_new) as [first|]; [|done]. cbn.
  destruct (py_assert (bool_decide (first.1 = gname))) as [u|] eqn:E1; [|done].
  apply py_assert_Ok, bool_decide_eq_true in E1. cbn.
  destruct (py_assert (bool_decide (length weights = length row_new)))
    as [u'|] eqn:E2; [|done].
  apply py_assert_Ok, bool_decide_eq_true in E2. cbn.
  destruct (for_each _ (zip row_new row_old)) as [deltas|]; [|done]. cbn.
  destruct (py_assert (bool_decide (shape first.2 = shape gparam)))
    as [u''|] eqn:E3; [|done].
  apply py_assert_Ok, bool_decide_eq_true in E3. cbn.
  destruct (tstack_sum _) as [merged|] eqn:E4; [|done]. cbn.
  destruct (tadd gparam merged) as [new_param|] eqn:E5; [|done]. cbn.
  intros [= <- <-]. exists first, deltas, merged, new_param.
  split_and!; done.
Qed.

Lemma param_rows_lookup client_updates global_model i row_new row_old gp :
  client_updates ≠ [] →
  param_rows (update_new <$> client_updates) (update_old <$> client_updates)
             global_model !! i = Some (row_new, row_old, gp) ↔
  Forall2 (λ u p, update_new u !! i = Some p) client_updates row_new ∧
  Forall2 (λ u p, update_old u !! i = Some p) client_updates row_old ∧
  global_model !! i = Some gp.
Proof.
  intros Hne. unfold param_rows. rewrite !lookup_zip_with.
  assert (update_new <$> client_updates ≠ []) as Hn by by destruct client_updates.
  assert (update_old <$> client_updates ≠ []) as Ho by by destruct client_updates.
  assert (∀ row, zip_star (update_new <$> client_updates) !! i = Some row ↔
            Forall2 (λ u p, update_new u !! i = Some p) client_updates row)
    as Hnew.
  { intros row. rewrite zip_star_lookup_Some by done. apply Forall2_fmap_l. }
  assert (∀ row, zip_star (update_old <$> client_updates) !! i = Some row ↔
            Forall2 (λ u p, update_old u !! i = Some p) client_updates row)
    as Hold.
  { intros row. rewrite zip_star_lookup_Some by done. apply Forall2_fmap_l. }
  rewrite <- Hnew, <- Hold.
  clear Hnew Hold.
  destruct (zip_star (update_new <$> _) !! i) as [rn|]; cbn.
  2:{ split; [done|]. by intros (? & _). }
  destruct (zip_star (update_old <$> _) !! i) as [ro|]; cbn.
  2:{ split; [done|]. by intros (_ & ? & _). }
  destruct (global_model !! i) as [gp'|]; cbn.
  2:{ split; [done|]. by intros (_ & _ & ?). }
  split.
  - by intros [= -> -> ->].
  - by intros ([= ->] & [= ->] & [= ->]).
Qed.

(** C6.  In a round that returns, every returned parameter carries the
    name of the global parameter at its position; when that name contains
    "bn" its value is the global parameter itself, whatever the updates
    hold; otherwise it is the global parameter plus the sum over the
    updates of weight times (new minus old), with the weights of lines
    76-85. *)
Theorem normalization_params_kept_others_merged
    clock global_model version client_updates rt out :
  (aggregation_func num_clients clock (global_model, version)
                    client_updates rt).1 = Ok out →
  ∃ weights,
    (compute_weights num_clients (update_id <$> client_updates) rt).1
    = Ok weights ∧
    ∀ i name value, out !! i = Some (name, value) →
      ∃ global_param news olds,
        global_model !! i = Some (name, global_param) ∧
        Forall2 (λ u p, update_new u !! i = Some p) client_updates news ∧
        Forall2 (λ u p, update_old u !! i = Some p) client_updates olds ∧
        if str_contains "bn" name then value = global_param
        else ∃ deltas merged_delta,
          Forall2 (λ p delta, tsub p.1.2 p.2.2 = Ok delta)
                  (zip news olds) deltas ∧
          tstack_sum (zip_with tscale weights deltas) = Ok merged_delta ∧
          tadd global_param merged_delta = Ok value.
Proof.
  intros Hout.
  apply aggregation_func_Ok in Hout as (Hne & weights & Hw & Hloop & _).
  exists weights. split; [done|]. intros i name value Hi.
  apply for_each_Forall2 in Hloop.
  destruct (Forall2_lookup_r _ _ _ _ _ Hloop Hi)
    as ([[row_new row_old] [gname gparam]] & Hrow & Hmerge).
  apply param_rows_lookup in Hrow as (Hnew & Hold & Hg); [|done].
  apply merge_param_Ok in Hmerge
    as (first & deltas & merged & new_param & _ & _ & -> & _ & _
        & Hdeltas & Hsum & Hadd & ->).
  exists gparam, row_new, row_old. split_and!; [done..|].
  destruct (str_contains "bn" gname); [done|].
  exists deltas, merged. split_and!; [|done..].
  by apply for_each_Forall2.
Qed.

End AggregationProperties.

(** ** Concrete rounds *)

Lemma normalization_params_kept_others_merged_witness :
  ∃ weights,
    (compute_weights 1 (update_id <$> [example_update]) example_tracker).1
    = Ok weights ∧
    ∀ i name value,
      [("conv1.weight"%string, [Qc_of_Z 2; Qc_of_Z 4]);
       ("bn1.running_mean"%string, [Qc_of_Z 5])] !! i = Some (name, value) →
      ∃ global_param news olds,
        example_global !! i = Some (name, global_param) ∧
        Forall2 (λ u p, update_new u !! i = Some p) [example_update] news ∧
        Forall2 (λ u p, update_old u !! i = Some p) [example_update] olds ∧
        if str_contains "bn" name then value = global_param
        else ∃ deltas merged_delta,
          Forall2 (λ p delta, tsub p.1.2 p.2.2 = Ok delta)
                  (zip news olds) deltas ∧
          tstack_sum (zip_with tscale weights deltas) = Ok merged_delta ∧
          tadd global_param merged_delta = Ok value.
Proof.
  apply (normalization_params_kept_others_merged 1 (λ _, Qc_of_Z 3)
           example_global 0%Z [example_update] example_tracker).
  by_eval.
Defined.



(** ** Rounds with a zero total rate *)

Lemma track_clients_ok clock client_ids rt :
  0 < window_size rt →
  ∃ units rt', track_clients clock client_ids rt = (Ok units, rt').
Proof.
  intros Hws. unfold track_clients.
  generalize (zip (seq 0 (length client_ids)) client_ids). intros xs.
  revert rt Hws. induction xs as [|[k id] xs IH]; intros rt Hws.
  - by exists [], rt.
  - cbn [for_eachM]. unfold mbind at 1, M_bind at 1.
    pose proof (track_update_result rt id (clock k)) as Hr.
    pose proof (track_update_window_size rt id (clock k)) as Hs.
    destruct (track_update id (clock k) rt) as [r rt1]. cbn [fst snd] in *.
    rewrite decide_False in Hr by lia. subst r.
    unfold mbind at 1, M_bind at 1.
    destruct (IH rt1) as (units & rt2 & ->); [lia|].
    by exists (() :: units), rt2.
Qed.

Lemma weights_of_zero_total num_clients rt client_ids :
  (get_rate_total rt).1 = Ok 0%Qc →
  for_each (λ k, ratio_of 0 (window rt k)) client_ids
  = Ok (replicate (length client_ids) 0%Qc) ∧
  weights_of num_clients rt client_ids = Ok (replicate (length client_ids) 0%Qc).
Proof.
  intros Htot.
  assert (for_each (λ k, ratio_of 0 (window rt k)) client_ids
          = Ok (replicate (length client_ids) 0%Qc)) as Hratios.
  { rewrite (for_each_ext _ (λ _, Ok 0%Qc)).
    - rewrite for_each_total. f_equal.
      induction client_ids as [|k ks IH]; [done|]. cbn. by rewrite IH.
    - intros k _. unfold ratio_of. by rewrite decide_False. }
  split; [done|]. unfold weights_of. rewrite Htot. cbn.
  rewrite Hratios. cbn. rewrite raw_weights_zeros. cbn.
  apply renormalize_zeros.
Qed.

Section ZeroRate.
Context {T : Type} `{Tensor T}.
Hypothesis laws : TensorLaws T.

Lemma deltas_ok (gparam : T) (row_new row_old : list (string * T)) :
  length row_new = length row_old →
  Forall (λ p, shape p.2 = shape gparam) row_new →
  Forall (λ p, shape p.2 = shape gparam) row_old →
  ∃ deltas,
    for_each (λ p, tsub p.1.2 p.2.2) (zip row_new row_old) = Ok deltas ∧
    length deltas = length row_new ∧
    Forall (λ d, shape d = shape gparam) deltas.
Proof.
  revert row_old.
  induction row_new as [|p row_new IH]; intros [|q row_old] Hlen Hnew Hold;
    try done.
  - by exists [].
  - apply Forall_cons in Hnew as [Hp Hnew].
    apply Forall_cons in Hold as [Hq Hold].
    destruct (IH row_old) as (deltas & Hd & Hl & Hs); [by injection Hlen|done..|].
    destruct (tsub_shape T laws p.2 q.2) as (d & Hsub & Hsh); [congruence|].
    exists (d :: deltas). cbn [zip_with for_each]. cbn [fst snd].
    rewrite Hsub, Hd. cbn. split_and!; [done|congruence|].
    constructor; [congruence|done].
Qed.

Lemma check_sizes_same (global_model : ModelParams T) :
  ∃ units, check_sizes global_model global_model = Ok units.
Proof.
  unfold check_sizes. induction global_model as [|gp g [units IH]].
  - by exists [].
  - exists (() :: units). cbn [zip_with for_each]. cbn [fst snd].
    rewrite !bool_decide_eq_true_2 by done. cbn. by rewrite IH.
Qed.

End ZeroRate.

(** ** One-dimensional tensors satisfy the tensor laws *)

Lemma zip_with_zero_r (g z : list Qc) :
  Forall (λ x, x = 0%Qc) z → length z = length g → zip_with Qcplus g z = g.
Proof.
  intros Hz. revert g. induction Hz as [|x z -> _ IH]; intros [|y g] Hl; try done.
  cbn. rewrite Qcplus_0_r, IH; [done|]. by injection Hl.
Qed.

Lemma zip_with_zeros (a b : list Qc) :
  Forall (λ x, x = 0%Qc) a → Forall (λ x, x = 0%Qc) b →
  Forall (λ x, x = 0%Qc) (zip_with Qcplus a b).
Proof.
  intros Ha. revert b. induction Ha as [|x a -> _ IH]; intros b Hb; [done|].
  destruct Hb as [|y b -> Hb]; [done|].
  cbn. constructor; [done|]. by apply IH.
Qed.

Lemma foldl_zip_with_length (t : tensor1) (ts : list tensor1) :
  Forall (λ u, length u = length t) ts →
  length (foldl (zip_with Qcplus) t ts) = length t.
Proof.
  revert t. induction ts as [|u ts IH]; intros t Hall; [done|].
  apply Forall_cons in Hall as [Hu Hall]. cbn [foldl].
  assert (length (zip_with Qcplus t u) = length t) as Hl.
  { rewrite length_zip_with. lia. }
  rewrite IH; [done|]. eapply Forall_impl; [exact Hall|].
  intros v Hv. cbn in Hv. congruence.
Qed.

Lemma foldl_zip_with_zeros (t : tensor1) (ts : list tensor1) :
  Forall (λ x, x = 0%Qc) t → Forall (Forall (λ x, x = 0%Qc)) ts →
  Forall (λ x, x = 0%Qc) (foldl (zip_with Qcplus) t ts).
Proof.
  revert t. induction ts as [|u ts IH]; intros t Ht Hall; [done|].
  apply Forall_cons in Hall as [Hu Hall]. cbn [foldl].
  apply IH; [|done]. by apply zip_with_zeros.
Qed.

Lemma tensor1_laws : TensorLaws tensor1.
Proof.
  split.
  - intros a b [= Hl]. exists (zip_with Qcminus a b). cbn.
    unfold broadcast2. rewrite decide_True by done.
    split; [done|]. rewrite length_zip_with. f_equal. lia.
  - intros w a. cbn. by rewrite length_fmap.
  - intros t ts Hall. cbn. exists (foldl (zip_with Qcplus) t ts).
    assert (Forall (λ u : tensor1, length u = length t) ts) as Hall'.
    { eapply Forall_impl; [exact Hall|]. by intros u [= ?]. }
    rewrite bool_decide_eq_true_2 by done.
    split; [done|]. by rewrite foldl_zip_with_length.
  - intros a. cbn. apply Forall_fmap, Forall_forall. intros x _.
    cbn. apply Qcmult_0_l.
  - intros [|t ts] z Hz; cbn; [done|].
    case_bool_decide; [|done]. intros [= <-].
    apply Forall_cons in Hz as [Ht Hts]. by apply foldl_zip_with_zeros.
  - intros g z Hz [= Hl]. cbn. unfold broadcast2.
    rewrite decide_True by done. by rewrite zip_with_zero_r.
Qed.

(** ** Zero-rate rounds on tensors that may hold non-finite entries *)

Section FiniteZeroRate.
Context {T : Type} `{Tensor T}.
Variable finite : T → Prop.
Hypothesis laws : FiniteTensorLaws T finite.

Lemma finite_deltas_ok (gp : string * T) (row_new row_old : list (string * T)) :
  Forall2 (λ pn po, same_signature pn gp ∧ same_signature po gp ∧
                    finite_delta finite pn po) row_new row_old →
  ∃ deltas,
    for_each (λ p, tsub p.1.2 p.2.2) (zip row_new row_old) = Ok deltas ∧
    length deltas = length row_new ∧
    Forall (λ d, shape d = shape gp.2 ∧ finite d) deltas.
Proof.
  induction 1 as [|p q row_new row_old (Hp & Hq & Hfin) _ (deltas & Hd & Hl & Hs)].
  - by exists [].
  - destruct Hp as [_ Hp], Hq as [_ Hq].
    destruct (any_tsub_shape T finite laws p.2 q.2) as (d & Hsub & Hsh);
      [congruence|].
    unfold finite_delta in Hfin. rewrite Hsub in Hfin.
    exists (d :: deltas). cbn [zip_with for_each]. cbn [fst snd].
    rewrite Hsub, Hd. cbn. split_and!; [done|congruence|].
    constructor; [|done]. split; [congruence|done].
Qed.

Lemma zero_weighted_finite (gparam : T) deltas :
  Forall (λ d, shape d = shape gparam ∧ finite d) deltas →
  Forall (λ d, shape d = shape gparam ∧ tzero d)
         (zip_with tscale (replicate (length deltas) 0%Qc) deltas) ∧
  length (zip_with tscale (replicate (length deltas) 0%Qc) deltas)
  = length deltas.
Proof.
  induction 1 as [|d deltas [Hd Hfd] _ [IH1 IH2]]; [done|].
  cbn. split; [|by rewrite IH2]. constructor; [|done]. split.
  - by rewrite (any_tscale_shape T finite laws).
  - by apply (finite_tscale_zero T finite laws).
Qed.

(** With all weights 0 and finite differences, the loop body returns the
    global parameter. *)
Lemma merge_param_zero_weights_finite (gp : string * T) row_new row_old :
  row_new ≠ [] →
  Forall2 (λ pn po, same_signature pn gp ∧ same_signature po gp ∧
                    finite_delta finite pn po) row_new row_old →
  merge_param (replicate (length row_new) 0%Qc) (row_new, row_old, gp) = Ok gp.
Proof.
  intros Hne Hrows.
  destruct (finite_deltas_ok gp row_new row_old Hrows) as (deltas & Hd & Hl & Hs).
  pose proof (Forall2_length _ _ _ Hrows) as Hlen.
  destruct gp as [gname gparam].
  destruct Hrows as [|first old1 row_new row_old ([Hname Hshape] & _) Hrows];
    [done|].
  cbn in Hname, Hshape, Hs.
  unfold merge_param. cbn [head]. cbn -[for_each replicate zip_with length].
  rewrite bool_decide_eq_true_2 by done. cbn -[for_each replicate zip_with length].
  rewrite length_replicate, bool_decide_eq_true_2 by done.
  cbn -[for_each replicate zip_with length].
  rewrite Hd. cbn -[for_each replicate zip_with length].
  rewrite bool_decide_eq_true_2 by done.
  cbn -[for_each replicate zip_with length].
  rewrite <- Hl.
  destruct (zero_weighted_finite gparam deltas Hs) as [Hz Hzl].
  destruct (zip_with tscale _ deltas) as [|w weighted] eqn:Ew.
  { cbn in Hzl. cbn in Hl. lia. }
  apply Forall_cons in Hz as [[Hwsh Hwz] Hz].
  destruct (any_tstack_sum_shape T finite laws w weighted) as (z & Hsum & Hzsh).
  { eapply Forall_impl; [exact Hz|]. intros u [? _]. congruence. }
  rewrite Hsum. cbn.
  assert (tzero z) as Hzz.
  { apply (any_tstack_sum_zero T finite laws (w :: weighted)); [|done].
    constructor; [done|]. eapply Forall_impl; [exact Hz|]. by intros u [_ ?]. }
  rewrite (any_tadd_zero T finite laws gparam z Hzz) by congruence. cbn.
  rewrite Hname. by destruct (str_contains "bn" gname).
Qed.

Lemma rows_of_matching_updates (global_model : ModelParams T)
    (client_updates : list (ClientUpdate T)) i row_new row_old gp :
  Forall (matches_global global_model) client_updates →
  Forall (finite_deltas finite) client_updates →
  global_model !! i = Some gp →
  Forall2 (λ u p, update_new u !! i = Some p) client_updates row_new →
  Forall2 (λ u p, update_old u !! i = Some p) client_updates row_old →
  Forall2 (λ pn po, same_signature pn gp ∧ same_signature po gp ∧
                    finite_delta finite pn po) row_new row_old.
Proof.
  intros Hwf Hfin Hg Hnew. revert row_old.
  induction Hnew as [|u pn us row_new Hpn _ IH]; intros row_old Hold.
  { apply Forall2_nil_inv_l in Hold as ->. constructor. }
  apply Forall2_cons_inv_l in Hold as (po & row_old' & Hpo & Hold & ->).
  apply Forall_cons in Hwf as [[Hun Huo] Hwf].
  apply Forall_cons in Hfin as [Hfu Hfin].
  constructor; [|by apply IH]. split_and!.
  - destruct (Forall2_lookup_l _ _ _ _ _ Hun Hpn) as (g' & Hg' & Hsig).
    rewrite Hg in Hg'. by injection Hg' as <-.
  - destruct (Forall2_lookup_l _ _ _ _ _ Huo Hpo) as (g' & Hg' & Hsig).
    rewrite Hg in Hg'. by injection Hg' as <-.
  - destruct (Forall2_lookup_l _ _ _ _ _ Hfu Hpn) as (po' & Hpo' & Hd).
    rewrite Hpo in Hpo'. by injection Hpo' as <-.
Qed.

Lemma merge_rows_zero_weights_finite (global_model : ModelParams T)
    (client_updates : list (ClientUpdate T)) :
  client_updates ≠ [] →
  Forall (matches_global global_model) client_updates →
  Forall (finite_deltas finite) client_updates →
  for_each (merge_param (replicate (length client_updates) 0%Qc))
    (param_rows (update_new <$> client_updates)
                (update_old <$> client_updates) global_model)
  = Ok global_model.
Proof.
  intros Hne Hwf Hfin. apply for_each_Forall2.
  apply Forall2_same_length_lookup_2.
  - unfold param_rows. rewrite !length_zip_with.
    rewrite (zip_star_length _ (length global_model)).
    + rewrite (zip_star_length _ (length global_model)); [lia| |].
      * by destruct client_updates.
      * apply Forall_fmap. eapply Forall_impl; [exact Hwf|].
        intros u [_ Hu]. by apply Forall2_length in Hu.
    + by destruct client_updates.
    + apply Forall_fmap. eapply Forall_impl; [exact Hwf|].
      intros u [Hu _]. by apply Forall2_length in Hu.
  - intros i [[row_new row_old] gp'] gp Hrow Hg.
    apply param_rows_lookup in Hrow as (Hnew & Hold & Hg'); [|done].
    rewrite Hg in Hg'. injection Hg' as <-.
    pose proof (rows_of_matching_updates global_model client_updates i
                  row_new row_old gp Hwf Hfin Hg Hnew Hold) as Hrows.
    apply Forall2_length in Hnew.
    rewrite Hnew. apply merge_param_zero_weights_finite; [|done].
    destruct row_new; [|done]. by destruct client_updates.
Qed.

(** C8 (as the code behaves).  When the total tracked rate is 0, every
    rate ratio and every weight that lines 76-85 compute is 0.  The round
    then returns the global parameter sequence it was given when the
    tracker's window size is positive, the batch is not empty, the old and
    the new model of every update have the global model's names and shapes
    position by position, and every difference between an update's new and
    old tensor is finite. *)
Theorem zero_total_rate_round_on_finite_updates
    (num_clients : nat) (clock : nat → Qc) (global_model : ModelParams T)
    (version : Z) (client_updates : list (ClientUpdate T))
    (rt : RateTracker) :
  (get_rate_total rt).1 = Ok 0%Qc →
  (rate_ratios 0%Qc (update_id <$> client_updates) rt).1
  = Ok (replicate (length client_updates) 0%Qc) ∧
  (compute_weights num_clients (update_id <$> client_updates) rt).1
  = Ok (replicate (length client_updates) 0%Qc) ∧
  (0 < window_size rt →
   client_updates ≠ [] →
   Forall (matches_global global_model) client_updates →
   Forall (finite_deltas finite) client_updates →
   (aggregation_func num_clients clock (global_model, version)
                     client_updates rt).1 = Ok global_model).
Proof.
  intros Htot.
  destruct (weights_of_zero_total num_clients rt
              (update_id <$> client_updates) Htot) as [Hratios Hweights].
  rewrite length_fmap in Hratios, Hweights.
  split_and!.
  - destruct (rate_ratios_run 0%Qc (update_id <$> client_updates) rt)
      as (rt1 & -> & _). exact Hratios.
  - destruct (compute_weights_run num_clients (update_id <$> client_updates) rt)
      as (rt1 & -> & _). exact Hweights.
  - intros Hws Hne Hwf Hfin.
    rewrite aggregation_func_run by done.
    unfold mbind at 1, M_bind at 1.
    destruct (compute_weights_run num_clients (update_id <$> client_updates) rt)
      as (rt1 & -> & Hs1 & _). rewrite Hweights.
    unfold mbind at 1, M_bind at 1.
    destruct (track_clients_ok clock (update_id <$> client_updates) rt1)
      as (units & rt2 & ->); [lia|].
    unfold mbind at 1, M_bind at 1, lift.
    rewrite (merge_rows_zero_weights_finite global_model client_updates
               Hne Hwf Hfin).
    unfold mbind at 1, M_bind at 1.
    destruct (check_sizes_same global_model) as [us ->]. done.
Qed.
End FiniteZeroRate.

(** ** Tensors with non-finite entries satisfy the zero-rate laws *)

Lemma xadd_zero_r x : xadd x (Fin 0%Qc) = x.
Proof. destruct x; cbn; [|done..]. by rewrite Qcplus_0_r. Qed.

Lemma xzip_with_zero_r (g z : tensorx) :
  Forall (λ x, x = Fin 0%Qc) z → length z = length g → zip_with xadd g z = g.
Proof.
  intros Hz. revert g. induction Hz as [|x z -> _ IH]; intros [|y g] Hl; try done.
  cbn [zip_with]. rewrite xadd_zero_r, IH; [done|]. by injection Hl.
Qed.

Lemma xzip_with_zeros (a b : tensorx) :
  Forall (λ x, x = Fin 0%Qc) a → Forall (λ x, x = Fin 0%Qc) b →
  Forall (λ x, x = Fin 0%Qc) (zip_with xadd a b).
Proof.
  intros Ha. revert b. induction Ha as [|x a -> _ IH]; intros b Hb; [done|].
  destruct Hb as [|y b -> Hb]; [done|].
  cbn [zip_with]. constructor; [|by apply IH]. cbn. by rewrite Qcplus_0_r.
Qed.

Lemma xfoldl_zip_with_length (t : tensorx) (ts : list tensorx) :
  Forall (λ u, length u = length t) ts →
  length (foldl (zip_with xadd) t ts) = length t.
Proof.
  revert t. induction ts as [|u ts IH]; intros t Hall; [done|].
  apply Forall_cons in Hall as [Hu Hall]. cbn [foldl].
  assert (length (zip_with xadd t u) = length t) as Hl.
  { rewrite length_zip_with. lia. }
  rewrite IH; [done|]. eapply Forall_impl; [exact Hall|].
  intros v Hv. cbn in Hv. congruence.
Qed.

Lemma xfoldl_zip_with_zeros (t : tensorx) (ts : list tensorx) :
  Forall (λ x, x = Fin 0%Qc) t → Forall (Forall (λ x, x = Fin 0%Qc)) ts →
  Forall (λ x, x = Fin 0%Qc) (foldl (zip_with xadd) t ts).
Proof.
  revert t. induction ts as [|u ts IH]; intros t Ht Hall; [done|].
  apply Forall_cons in Hall as [Hu Hall]. cbn [foldl].
  apply IH; [|done]. by apply xzip_with_zeros.
Qed.

Lemma tensorx_laws : FiniteTensorLaws tensorx (Forall is_finite).
Proof.
  split.
  - intros a b [= Hl]. exists (zip_with xsub a b). cbn.
    unfold xbroadcast2. rewrite decide_True by done.
    split; [done|]. rewrite length_zip_with. f_equal. lia.
  - intros a Ha. cbn. apply Forall_fmap. eapply Forall_impl; [exact Ha|].
    intros [q| | |] Hq; try done. cbn. by rewrite Qcmult_0_l.
  - intros w a. cbn. by rewrite length_fmap.
  - intros t ts Hall. cbn. exists (foldl (zip_with xadd) t ts).
    assert (Forall (λ u : tensorx, length u = length t) ts) as Hall'.
    { eapply Forall_impl; [exact Hall|]. by intros u [= ?]. }
    rewrite bool_decide_eq_true_2 by done.
    split; [done|]. by rewrite xfoldl_zip_with_length.
  - intros [|t ts] z Hz; cbn; [done|].
    case_bool_decide; [|done]. intros [= <-].
    apply Forall_cons in Hz as [Ht Hts]. by apply xfoldl_zip_with_zeros.
  - intros g z Hz [= Hl]. cbn. unfold xbroadcast2.
    rewrite decide_True by done. by rewrite xzip_with_zero_r.
Qed.

Lemma zero_total_rate_round_on_finite_updates_witness :
  (rate_ratios 0%Qc (update_id <$> [xupdate; xupdate]) rate_tracker).1
  = Ok (replicate (length [xupdate; xupdate]) 0%Qc) ∧
  (compute_weights 2 (update_id <$> [xupdate; xupdate]) rate_tracker).1
  = Ok (replicate (length [xupdate; xupdate]) 0%Qc) ∧
  (aggregation_func 2 (λ _, Qc_of_Z 3) (xglobal, 0%Z)
                    [xupdate; xupdate] rate_tracker).1 = Ok xglobal.
Proof.
  destruct (zero_total_rate_round_on_finite_updates
              (Forall is_finite) tensorx_laws 2 (λ _, Qc_of_Z 3) xglobal 0%Z
              [xupdate; xupdate] rate_tracker eq_refl)
    as (Hratios & Hweights & Hround).
  split_and!; [exact Hratios|exact Hweights|].
  apply Hround.
  - vm_compute. lia.
  - discriminate.
  - repeat constructor.
  - repeat constructor.
Defined.

(** C8 fails as stated.  On the module's new tracker, whose total rate is
    0, a round with an empty batch raises; a round whose update has fewer
    parameters than the global model returns a shortened model; and a round
    whose update has the global model's names and shapes but an infinity in
    its new model returns a NaN where the global model has 1.  On a tracker
    with window size 0, whose total rate is 0 too, the round raises. *)
Lemma zero_rate_round_changes_global :
  (get_rate_total rate_tracker).1 = Ok 0%Qc ∧
  (aggregation_func (T:=tensor1) 1 (λ _, Qc_of_Z 3) (example_global, 0%Z)
                    [] rate_tracker).1 = Raise ValueError ∧
  (aggregation_func 1 (λ _, Qc_of_Z 3) (example_global, 0%Z)
                    [short_update] rate_tracker).1
  = Ok [("conv1.weight"%string, [Qc_of_Z 1; Qc_of_Z 2])] ∧
  [("conv1.weight"%string, [Qc_of_Z 1; Qc_of_Z 2])] ≠ example_global ∧
  matches_global xold infinite_update ∧
  (aggregation_func 1 (λ _, Qc_of_Z 3) (xold, 0%Z)
                    [infinite_update] rate_tracker).1
  = Ok [("fc.weight"%string, [NaN; Fin (Qc_of_Z 2)]);
        ("fc.bias"%string, [Fin (Qc_of_Z 0)])] ∧
  [("fc.weight"%string, [NaN; Fin (Qc_of_Z 2)]);
   ("fc.bias"%string, [Fin (Qc_of_Z 0)])] ≠ xold ∧
  (get_rate_total (mkRateTracker 0 ∅)).1 = Ok 0%Qc ∧
  (aggregation_func 1 (λ _, Qc_of_Z 3) (xglobal, 0%Z)
                    [xupdate] (mkRateTracker 0 ∅)).1 = Raise IndexError.
Proof.
  split_and!.
  - reflexivity.
  - by_eval.
  - by_eval.
  - discriminate.
  - repeat constructor.
  - by_eval.
  - discriminate.
  - reflexivity.
  - by_eval.
Qed.

(** ** The client-info tokens *)

Lemma str_index_absent c s :
  c ∉ String.list_ascii_of_string s → str_index c s = Raise ValueError.
Proof.
  induction s as [|c' s IH]; [done|]. simpl.
  intros Hc. apply not_elem_of_cons in Hc as [Hne Hc].
  rewrite decide_False by done. by rewrite IH.
Qed.

Lemma str_index_first c s rest :
  c ∉ String.list_ascii_of_string s →
  str_index c (String.append s (String c rest)) = Ok (String.length s).
Proof.
  induction s as [|c' s IH]; simpl.
  - intros _. by rewrite decide_True.
  - intros Hc. apply not_elem_of_cons in Hc as [Hne Hc].
    rewrite decide_False by done. by rewrite IH.
Qed.

Lemma substring_prefix s rest :
  String.substring 0 (String.length s) (String.append s rest) = s.
Proof.
  induction s as [|c s IH]; simpl; [by destruct rest|]. by rewrite IH.
Qed.

Lemma for_each_replicate {A} (r : result A) (a : A) n :
  r = Ok a → for_each (λ _ : (), r) (replicate n ()) = Ok (replicate n a).
Proof. intros ->. induction n as [|n IH]; [done|]. cbn. by rewrite IH. Qed.

Lemma span_digits_run ds rest :
  Forall (λ c, is_digit c = true) (String.list_ascii_of_string ds) →
  span_digits (String.append ds (String "]" rest)) = (ds, String "]" rest).
Proof.
  induction ds as [|d ds IH]; simpl.
  - done.
  - intros Hd. apply Forall_cons in Hd as [Hd Hds].
    rewrite Hd, IH by done. done.
Qed.

Lemma search_count_skip s rest :
  "["%char ∉ String.list_ascii_of_string s →
  search_count (String.append s rest) = search_count rest.
Proof.
  induction s as [|c s IH]; [done|]. simpl.
  intros Hc. apply not_elem_of_cons in Hc as [Hne Hc].
  rewrite decide_False by done. by apply IH.
Qed.

Lemma search_count_here d ds rest :
  Forall (λ c, is_digit c = true) (String.list_ascii_of_string (String d ds)) →
  search_count (String "[" (String.append (String d ds) (String "]" rest)))
  = Some (String d ds).
Proof.
  intros Hd. cbn [search_count]. rewrite decide_True by done.
  rewrite (span_digits_run (String d ds) rest Hd). by rewrite decide_True.
Qed.

Lemma bind_Ok {A B} (a : A) (f : A → result B) : Ok a ≫= f = f a.
Proof. done. Qed.

Section ClientInfoProperties.
Context {F R : Type}.
Variable py_float : string → result F.
Variable construct : runtime_class → list F → result R.

(** C4 (the code departs from the claim).  The token "i0.0", which has
    no count, makes the parser raise [ValueError], whatever [float] and the
    runtime classes do; and so does every token that starts with a known
    type code and contains no opening bracket: the default count of 1 is
    computed, but looking for the bracket that ends the parameters
    raises. *)
Theorem count_omitted_raises :
  client_runtimes py_float construct "i0.0" = Raise ValueError ∧
  ∀ (c : ascii) (params : string),
    c = "i"%char ∨ c = "g"%char →
    "["%char ∉ String.list_ascii_of_string params →
    runtimes_of_token py_float construct (String c params) = Raise ValueError.
Proof.
  split; [done|]. intros c params Hc Hparams.
  unfold runtimes_of_token. cbn -[str_index search_count].
  assert (∃ cls, CLIENT_TYPE_TO_MODEL c = Ok cls) as [cls ->].
  { destruct Hc as [-> | ->]; by eexists. }
  cbn -[str_index search_count].
  rewrite str_index_absent; [done|].
  cbn. apply not_elem_of_cons. split; [|done].
  destruct Hc as [-> | ->]; done.
Qed.

(** With the count present: a known type code, parameters without an
    opening bracket that [float] accepts, and a count in brackets give
    that many copies of what the runtime class returns. *)
Lemma count_present_replicates (c : ascii) (params : string)
    (d : ascii) (ds : string) cls ps r :
  CLIENT_TYPE_TO_MODEL c = Ok cls →
  "["%char ∉ String.list_ascii_of_string params →
  Forall (λ c, is_digit c = true) (String.list_ascii_of_string (String d ds)) →
  for_each py_float (str_split "/"%char params) = Ok ps →
  construct cls ps = Ok r →
  runtimes_of_token py_float construct
    (String c (String.append params
       (String "[" (String.append (String d ds) "]"))))
  = Ok (replicate (int_of_digits (String d ds)) r).
Proof.
  intros Hc Hparams Hd Hps Hr.
  assert (c ≠ "["%char) as Hcb.
  { intros ->. done. }
  unfold runtimes_of_token.
  cbn [search_count]. rewrite decide_False by done.
  rewrite search_count_skip by done.
  rewrite (search_count_here d ds "" Hd).
  rewrite bind_Ok, Hc, bind_Ok.
  cbn [str_index]. rewrite decide_False by done.
  rewrite str_index_first by done.
  rewrite !bind_Ok. rewrite Nat.sub_succ, Nat.sub_0_r.
  change (String.substring 1 ?n (String c ?s)) with (String.substring 0 n s).
  rewrite substring_prefix, Hps, bind_Ok.
  by apply for_each_replicate.
Qed.
End ClientInfoProperties.

Lemma count_omitted_raises_witness :
  runtimes_of_token (λ s, Ok s) (λ cls ps, Ok (cls, ps)) "g0.0/2.0"
  = Raise ValueError.
Proof.
  apply (proj2 (count_omitted_raises (λ s, Ok s) (λ cls ps, Ok (cls, ps)))
           "g"%char "0.0/2.0"%string).
  - by right.
  - vm_compute. intros Hin. repeat (apply elem_of_cons in Hin as [Hin|Hin]; [done|]).
    by apply elem_of_nil in Hin.
Defined.

(** * Further properties of the tracker *)

Lemma run_ops_snoc ops o rt : run_ops (ops ++ [o]) rt = run_op (run_ops ops rt) o.
Proof. unfold run_ops. by rewrite foldl_app. Qed.

Lemma run_op_window rt o k :
  window (run_op rt o) k
  = match o with
    | OpTrackUpdate k' now =>
        if decide (k' = k) then tracked (window_size rt) (window rt k) now
        else window rt k
    | _ => window rt k
    end.
Proof.
  destruct o as [k' now|k'|]; cbn [run_op].
  - rewrite track_update_window. by case_decide; subst.
  - apply get_rate_window.
  - by rewrite get_rate_total_run.
Qed.

Lemma times_of_snoc k ops o :
  times_of k (ops ++ [o])
  = times_of k ops ++ match o with
                      | OpTrackUpdate k' now => if decide (k' = k) then [now] else []
                      | _ => []
                      end.
Proof.
  unfold times_of. rewrite omap_app. f_equal.
  destruct o as [k' now|k'|]; cbn; [|done..]. by case_decide.
Qed.

Lemma removelast_take (l : list Qc) : removelast l = take (length l - 1) l.
Proof.
  induction l as [|x [|y l] IH]; [done..|].
  change (removelast (x :: y :: l)) with (x :: removelast (y :: l)).
  rewrite IH. cbn. by rewrite Nat.sub_0_r.
Qed.

Lemma last_drop (ts : list Qc) : ts ≠ [] → ∃ x, drop (length ts - 1) ts = [x] ∧ last ts = Some x.
Proof.
  intros Hne. destruct (exists_last Hne) as (l & x & ->).
  exists x. rewrite length_app. cbn. rewrite Nat.add_sub.
  rewrite drop_app_length. by rewrite last_snoc.
Qed.

Lemma tracked_retained ws ts now :
  0 < ws → tracked ws (retained ws ts) now = retained ws (ts ++ [now]).
Proof.
  intros Hws. unfold tracked, retained. rewrite length_app. cbn [length].
  destruct (decide (length ts ≤ ws)) as [Hfit|Hover].
  - destruct (decide (ws ≤ length ts)) as [Hfull|Hroom];
      destruct (decide (length ts + 1 ≤ ws)) as [Hfit'|Hover']; try lia.
    + destruct ts as [|t ts]; [cbn in Hfull; lia|].
      rewrite removelast_take.
      rewrite take_app_le by lia.
      replace (length (t :: ts) + 1 - 1) with (length (t :: ts)) by lia.
      rewrite drop_app_length.
      assert (ws = length (t :: ts)) as -> by lia. done.
    + done.
  - destruct (decide (length ts + 1 ≤ ws)) as [Hfit'|Hover']; [lia|].
    destruct (last_drop ts) as (x & Hx & _); [destruct ts; [cbn in Hover; lia|done]|].
    rewrite Hx.
    assert (length (take (ws - 1) ts) = ws - 1) as Hlen.
    { rewrite length_take. lia. }
    destruct (decide (ws ≤ length (take (ws - 1) ts ++ [x]))) as [_|Hc].
    2:{ rewrite length_app in Hc. cbn in Hc. lia. }
    destruct (take (ws - 1) ts ++ [x]) as [|y l] eqn:El.
    { by destruct (take (ws - 1) ts). }
    rewrite <- El. clear y l El.
    rewrite removelast_last.
    rewrite take_app_le by lia.
    replace (length ts + 1 - 1) with (length ts) by lia.
    by rewrite drop_app_length.
Qed.

Lemma retained_nil ws : retained ws [] = [].
Proof.
  unfold retained. destruct (decide (length (@nil Qc) ≤ ws)) as [|Hn]; [done|].
  cbn in Hn. lia.
Qed.

Lemma window_init ws k : window (RateTracker_init ws) k = [].
Proof. unfold window, RateTracker_init. cbn. by rewrite lookup_empty. Qed.

(** One more call keeps the window in the retained form. *)
Lemma run_op_retained ws ops o k :
  0 < ws →
  window (run_ops ops (RateTracker_init ws)) k = retained ws (times_of k ops) →
  window (run_op (run_ops ops (RateTracker_init ws)) o) k
  = retained ws (times_of k (ops ++ [o])).
Proof.
  intros Hws IH.
  rewrite run_op_window, run_ops_window_size, times_of_snoc, IH.
  cbn [RateTracker_init window_size].
  destruct o as [k' now|k'|]; rewrite ?app_nil_r; [|done..].
  destruct (decide (k' = k)); [|by rewrite app_nil_r].
  by apply tracked_retained.
Qed.

(** X1.  On a tracker created with a positive window size, after any run
    of its methods the window of a client holds the timestamps that the
    [track_update] calls of that client were handed: all of them, in order,
    while they fit, and from then on the first [window_size - 1] of them
    followed by the latest one.  Calls for other clients and the reading
    methods do not change it. *)
Theorem window_after_run (ws : nat) (ops : list op) (client_id : Z) :
  0 < ws →
  window (run_ops ops (RateTracker_init ws)) client_id
  = retained ws (times_of client_id ops).
Proof.
  intros Hws. induction ops as [|o ops IH] using rev_ind.
  - change (run_ops [] (RateTracker_init ws)) with (RateTracker_init ws).
    by rewrite retained_nil, window_init.
  - rewrite run_ops_snoc.
    by apply run_op_retained.
Qed.

Lemma window_after_run_witness :
  window (run_ops [OpTrackUpdate 0 (Qc_of_Z 1); OpTrackUpdate 1 (Qc_of_Z 2);
                   OpTrackUpdate 0 (Qc_of_Z 3); OpGetRate 0;
                   OpTrackUpdate 0 (Qc_of_Z 4); OpTrackUpdate 0 (Qc_of_Z 5)]
                  (RateTracker_init 3)) 0
  = retained 3 (times_of 0
      [OpTrackUpdate 0 (Qc_of_Z 1); OpTrackUpdate 1 (Qc_of_Z 2);
       OpTrackUpdate 0 (Qc_of_Z 3); OpGetRate 0;
       OpTrackUpdate 0 (Qc_of_Z 4); OpTrackUpdate 0 (Qc_of_Z 5)]).
Proof. apply (window_after_run 3). lia. Defined.

Lemma retained_full ws ts first latest :
  2 ≤ ws → ws ≤ length ts → head ts = Some first → last ts = Some latest →
  length (retained ws ts) = ws ∧
  head (retained ws ts) = Some first ∧ last (retained ws ts) = Some latest.
Proof.
  intros Hws Hlen Hh Hl. unfold retained.
  destruct (decide (length ts ≤ ws)) as [Hfit|Hover].
  - split_and!; [lia|done..].
  - destruct (last_drop ts) as (x & Hx & Hlx); [by intros ->|].
    rewrite Hx. rewrite Hl in Hlx. injection Hlx as <-.
    split_and!.
    + rewrite length_app, length_take. cbn. lia.
    + destruct ts as [|t ts]; [done|].
      destruct ws as [|[|ws]]; [lia..|]. cbn in Hh |- *. done.
    + by rewrite last_snoc.
Qed.

(** X2.  Once a client has reported at least [window_size] times (window
    size 2 or more), [get_rate] is [window_size] divided by the time between
    its first report ever and its latest one (raising when the two are
    equal): the rate is measured over the whole run, not over the recent
    reports. *)
Theorem rate_once_window_is_full
    (ws : nat) (ops : list op) (client_id : Z) (first latest : Qc) :
  2 ≤ ws →
  ws ≤ length (times_of client_id ops) →
  head (times_of client_id ops) = Some first →
  last (times_of client_id ops) = Some latest →
  (get_rate client_id (run_ops ops (RateTracker_init ws))).1
  = py_div (Qc_of_Z (Z.of_nat ws)) (latest - first)%Qc.
Proof.
  intros Hws Hlen Hh Hl.
  assert (window (run_ops ops (RateTracker_init ws)) client_id
          = retained ws (times_of client_id ops)) as Hwin.
  { clear Hlen Hh Hl. induction ops as [|o ops IH] using rev_ind.
    - change (run_ops [] (RateTracker_init ws)) with (RateTracker_init ws).
      by rewrite retained_nil, window_init.
    - rewrite run_ops_snoc. apply run_op_retained; [lia|done]. }
  rewrite get_rate_result, Hwin.
  destruct (retained_full ws _ first latest Hws Hlen Hh Hl) as (Hn & Hh' & Hl').
  rewrite (rate_of_long _ first latest); [by rewrite Hn|lia|done..].
Qed.

Lemma rate_once_window_is_full_witness :
  (get_rate 0 (run_ops (OpTrackUpdate 0 <$> (Qc_of_Z <$> [1; 2; 3; 4; 5; 6; 7]%Z))
                       (RateTracker_init 5))).1
  = py_div (Qc_of_Z (Z.of_nat 5)) (Qc_of_Z 7 - Qc_of_Z 1)%Qc.
Proof.
  apply (rate_once_window_is_full 5
           (OpTrackUpdate 0 <$> (Qc_of_Z <$> [1; 2; 3; 4; 5; 6; 7]%Z)) 0).
  - lia.
  - vm_compute. lia.
  - reflexivity.
  - reflexivity.
Defined.

(** X3.  [track_update] returns on every tracker whose window size is
    positive; on a tracker created with window size 0 every [track_update]
    raises [IndexError] and the window of the client stays empty, whatever
    was called before. *)
Theorem track_update_raises_only_without_window :
  (∀ (rt : RateTracker) (client_id : Z) (now : Qc),
     0 < window_size rt → (track_update client_id now rt).1 = Ok ()) ∧
  (∀ (ops : list op) (client_id : Z) (now : Qc),
     let rt := run_ops ops (RateTracker_init 0) in
     (track_update client_id now rt).1 = Raise IndexError ∧
     window (track_update client_id now rt).2 client_id = []).
Proof.
  split.
  - intros rt k now Hws. rewrite track_update_result.
    destruct (decide (window_size rt = 0 ∧ window rt k = [])) as [[? _]|]; [lia|done].
  - intros ops k now rt.
    assert (window_size rt = 0) as Hws by apply run_ops_window_size.
    assert (∀ k', window rt k' = []) as Hw.
    { intros k'. pose proof (run_ops_bounded ops _ (init_bounded 0) k') as Hb.
      fold rt in Hb. rewrite Hws in Hb. destruct (window rt k'); [done|cbn in Hb; lia]. }
    split.
    + rewrite track_update_result.
      destruct (decide (window_size rt = 0 ∧ window rt k = [])) as [|Hn]; [done|].
      destruct Hn. by split.
    + rewrite track_update_window. case_decide; [|done].
      rewrite Hw, Hws. done.
Qed.

Lemma track_update_raises_only_without_window_witness :
  (track_update 4 (Qc_of_Z 9) example_tracker).1 = Ok ().
Proof.
  apply (proj1 track_update_raises_only_without_window example_tracker).
  vm_compute. lia.
Defined.

(** ** Reading the rates *)

Lemma py_sum_Permutation xs ys : xs ≡ₚ ys → py_sum xs = py_sum ys.
Proof.
  induction 1 as [|x xs ys _ IH|x y xs|xs ys zs _ IH1 _ IH2].
  - done.
  - by rewrite !py_sum_cons, IH.
  - rewrite !py_sum_cons, !Qcplus_assoc. f_equal. apply Qcplus_comm.
  - congruence.
Qed.

(** The value a window contributes to the total. *)
Lemma for_each_all_ok {A} (f : A → result Qc) g xs :
  (∀ x, x ∈ xs → f x = Ok (g x)) → for_each f xs = Ok (g <$> xs).
Proof.
  intros Hf. rewrite <- for_each_total. by apply for_each_ext.
Qed.

Lemma for_each_Raise_elem {A B} (f : A → result B) xs e :
  for_each f xs = Raise e → ∃ x, x ∈ xs ∧ f x = Raise e.
Proof.
  induction xs as [|x xs IH]; [done|]. cbn [for_each].
  destruct (f x) as [y|e'] eqn:Ex; cbn.
  - destruct (for_each f xs) as [ys|e'']; cbn; [done|].
    intros [= ->]. destruct IH as (x' & Hx' & Hf); [done|].
    exists x'. split; [by right|done].
  - intros [= ->]. exists x. split; [by left|done].
Qed.

Lemma for_each_Ok_elem {A B} (f : A → result B) xs ys x :
  for_each f xs = Ok ys → x ∈ xs → ∃ y, f x = Ok y.
Proof.
  intros Hf Hx. apply for_each_Forall2 in Hf.
  apply list_elem_of_lookup in Hx as [i Hi].
  destruct (Forall2_lookup_l _ _ _ _ _ Hf Hi) as (y & _ & Hy). by exists y.
Qed.

(** The sum of the rates is the same over any two lists of clients that
    are permutations of each other. *)
Lemma rates_Permutation (w : Z → list Qc) ks ks' :
  ks ≡ₚ ks' →
  py_sum <$> for_each (λ k, rate_of (w k)) ks
  = py_sum <$> for_each (λ k, rate_of (w k)) ks'.
Proof.
  intros Hp.
  destruct (for_each (λ k, rate_of (w k)) ks) as [rs|e] eqn:E.
  - assert (∀ k, k ∈ ks → rate_of (w k) = Ok (rate_value (w k))) as Hall.
    { intros k Hk. destruct (for_each_Ok_elem _ _ _ k E Hk) as [r Hr].
      unfold rate_value. by rewrite Hr. }
    rewrite (for_each_all_ok _ (λ k, rate_value (w k))) in E by done.
    injection E as <-.
    rewrite (for_each_all_ok _ (λ k, rate_value (w k))).
    2:{ intros k Hk. apply Hall. by rewrite Hp. }
    cbn. f_equal. apply py_sum_Permutation. by rewrite Hp.
  - destruct (for_each_Raise_elem _ _ _ E) as (k & Hk & Hr).
    pose proof (rate_of_raise _ _ Hr) as ->.
    rewrite (for_each_raise _ ks' k ZeroDivisionError); [done| |done|].
    + by rewrite <- Hp.
    + intros y e'. apply rate_of_raise.
Qed.

(** X4.  [get_rate] of a client that is not a key of the dictionary
    returns 0, adds the client as a key with an empty list, and leaves the
    result of [get_rate_total] as it was. *)
Theorem get_rate_of_unseen_client (rt : RateTracker) (client_id : Z) :
  client_update rt !! client_id = None →
  (get_rate client_id rt).1 = Ok 0%Qc ∧
  client_update (get_rate client_id rt).2 = <[client_id := []]> (client_update rt) ∧
  (get_rate_total (get_rate client_id rt).2).1 = (get_rate_total rt).1.
Proof.
  intros Hk.
  assert (get_rate client_id rt
          = (Ok 0%Qc, mkRateTracker (window_size rt)
                        (<[client_id := []]> (client_update rt)))) as ->.
  { unfold get_rate, mbind, M_bind, getitem. by rewrite Hk. }
  split_and!; [done..|].
  rewrite !get_rate_total_run. cbn [fst]. unfold rates_of_keys.
  cbn [snd client_update].
  rewrite (for_each_ext _ (λ k, rate_of (window rt k))).
  2:{ intros k _. cbn [snd]. f_equal. rewrite window_insert, window_mk.
      case_decide; [subst|done]. unfold window. by rewrite Hk. }
  rewrite (rates_Permutation (window rt) _
             (client_id :: (map_to_list (client_update rt)).*1)).
  2:{ by rewrite (map_to_list_insert _ _ _ Hk). }
  assert (window rt client_id = []) as Hw by (unfold window; by rewrite Hk).
  cbn [for_each]. rewrite Hw, (rate_of_short []) by (cbn; lia). cbn.
  destruct (for_each _ _) as [rs|e]; cbn; [|done].
  by rewrite Qcplus_0_l.
Qed.

Lemma get_rate_of_unseen_client_witness :
  (get_rate 7 example_tracker).1 = Ok 0%Qc ∧
  client_update (get_rate 7 example_tracker).2
  = <[7%Z := []]> (client_update example_tracker) ∧
  (get_rate_total (get_rate 7 example_tracker).2).1
  = (get_rate_total example_tracker).1.
Proof. apply (get_rate_of_unseen_client example_tracker 7). reflexivity. Defined.

(** X5.  [get_rate_total] leaves the tracker as it was; the only
    exception it raises is [ZeroDivisionError], and it raises it exactly
    when [get_rate] raises it for some client (which is then a key); when
    it returns, the total is the sum of what [get_rate] returns for the
    keys. *)
Theorem get_rate_total_reads_every_client (rt : RateTracker) :
  (get_rate_total rt).2 = rt ∧
  (∀ e, (get_rate_total rt).1 = Raise e →
        e = ZeroDivisionError ∧
        ∃ k, is_Some (client_update rt !! k) ∧
             (get_rate k rt).1 = Raise ZeroDivisionError) ∧
  (∀ k, (get_rate k rt).1 = Raise ZeroDivisionError →
        (get_rate_total rt).1 = Raise ZeroDivisionError) ∧
  (∀ total, (get_rate_total rt).1 = Ok total →
        ∃ rates,
          Forall2 (λ k r, (get_rate k rt).1 = Ok r)
                  (map_to_list (client_update rt)).*1 rates ∧
          total = py_sum rates).
Proof.
  rewrite get_rate_total_run. cbn [fst snd]. split_and!; [done|..].
  - intros e He. unfold rates_of_keys in He.
    destruct (for_each _ _) as [rs|e'] eqn:E; [done|]. injection He as ->.
    destruct (for_each_Raise_elem _ _ _ E) as (k & Hk & Hr).
    pose proof (rate_of_raise _ _ Hr) as ->. split; [done|].
    exists k. split; [|by rewrite get_rate_result].
    apply list_elem_of_fmap in Hk as ([k' l] & -> & Hk).
    apply elem_of_map_to_list in Hk. by exists l.
  - intros k Hk. rewrite get_rate_result in Hk.
    pose proof (get_rate_total_raises rt k Hk) as Ht.
    by rewrite get_rate_total_run in Ht.
  - intros total Ht. unfold rates_of_keys in Ht.
    destruct (for_each _ _) as [rs|e'] eqn:E; [|done]. injection Ht as <-.
    exists rs. split; [|done]. apply for_each_Forall2 in E.
    eapply Forall2_impl; [exact E|]. intros k r Hr. by rewrite get_rate_result.
Qed.

Lemma Qc_of_Z_pos n : (0 < n)%Z → (0 < Qc_of_Z n)%Qc.
Proof. intros Hn. unfold Qclt, Qlt. change (0 * 1 < n * 1)%Z. lia. Qed.

Lemma Qcdiv_pos_iff (n d : Qc) : (0 < n)%Qc → d ≠ 0%Qc → (0 < n / d ↔ 0 < d)%Qc.
Proof.
  intros Hn Hd. split.
  - intros Hq. destruct (Qclt_le_dec 0 d) as [|Hle]; [done|]. exfalso.
    assert (0 < - d)%Qc as Hneg.
    { apply Qcle_lt_or_eq in Hle as [Hlt|?]; [|done].
      apply (Qcplus_lt_mono_r _ _ d). rewrite Qcplus_0_l. by replace (- d + d)%Qc with 0%Qc by ring. }
    pose proof (Qcmult_pos_pos _ _ Hq Hneg) as Hp.
    assert (n / d * - d = - n)%Qc as Heq.
    { unfold Qcdiv. field. done. }
    rewrite Heq in Hp.
    apply (Qclt_not_le _ _ Hn). apply Qclt_le_weak.
    apply (Qcplus_lt_mono_r _ _ (- n)%Qc). by rewrite Qcplus_opp_r, Qcplus_0_l.
  - intros Hpos. apply Qcmult_pos_pos; [done|]. by apply Qcinv_pos.
Qed.

Lemma rate_of_positive_iff (l : list Qc) (r : Qc) :
  rate_of l = Ok r →
  ((0 < r)%Qc ↔
   ∃ oldest newest,
     2 ≤ length l ∧ head l = Some oldest ∧ last l = Some newest ∧
     (oldest < newest)%Qc).
Proof.
  unfold rate_of.
  destruct (decide (length l < 2)) as [Hshort|Hlong].
  - intros [= <-]. split; [by intros ?%Qclt_not_eq|].
    intros (? & ? & ? & _). lia.
  - destruct l as [|x l]; [cbn in Hlong; lia|].
    destruct (last (x :: l)) as [y|] eqn:El; [|by apply last_None in El].
    cbn [head]. unfold py_div. case_decide as Hz; [done|]. intros [= <-].
    rewrite Qcdiv_pos_iff; [|apply Qc_of_Z_pos; cbn; lia|done].
    split.
    + intros Hpos. exists x, y. split_and!; [cbn in *; lia|done..|].
      apply (Qcplus_lt_mono_r _ _ (- x)%Qc). by rewrite Qcplus_opp_r.
    + intros (o & n & _ & [= <-] & [= <-] & Hlt).
      apply (Qcplus_lt_mono_r _ _ (- x)%Qc) in Hlt. by rewrite Qcplus_opp_r in Hlt.
Qed.

Lemma Qcdiv_pos_numerator (n d : Qc) : (0 < d)%Qc → (0 < n / d)%Qc → (0 < n)%Qc.
Proof.
  intros Hd Hq. replace n with (n / d * d)%Qc.
  - by apply Qcmult_pos_pos.
  - unfold Qcdiv. field. intros Hz. rewrite Hz in Hd. by apply Qclt_not_eq in Hd.
Qed.

(** A positive weight of lines 76-85 comes from a positive rate. *)
Lemma positive_weight_positive_rate num_clients rt client_ids weights i k w :
  weights_of num_clients rt client_ids = Ok weights →
  client_ids !! i = Some k → weights !! i = Some w → (0 < w)%Qc →
  ∃ r, rate_of (window rt k) = Ok r ∧ (0 < r)%Qc.
Proof.
  unfold weights_of. intros Hw Hk Hi Hpos.
  destruct ((get_rate_total rt).1) as [total|e]; [|done]. cbn in Hw.
  destruct (for_each _ client_ids) as [ratios|e] eqn:Eratios; [|done].
  cbn in Hw.
  destruct (raw_weights num_clients ratios) as [raw|e] eqn:Eraw; [|done].
  cbn in Hw. rewrite renormalize_run in Hw. injection Hw as <-.
  rewrite list_lookup_fmap in Hi.
  destruct (raw !! i) as [w0|] eqn:Ew0; [|done]. injection Hi as <-.
  destruct (decide (0 < py_sum raw)%Qc) as [Hsum|Hsum];
    [|by apply Qclt_not_eq in Hpos].
  apply (Qcdiv_pos_numerator _ _ Hsum) in Hpos.
  apply for_each_Forall2 in Eraw, Eratios.
  destruct (Forall2_lookup_r _ _ _ _ _ Eraw Ew0) as (ratio & Hratio & Hw0).
  destruct (decide (0 < ratio)%Qc) as [Hrpos|Hrpos].
  2:{ injection Hw0 as <-. by apply Qclt_not_eq in Hpos. }
  destruct (Forall2_lookup_r _ _ _ _ _ Eratios Hratio) as (k' & Hk' & Hr).
  rewrite Hk in Hk'. injection Hk' as <-.
  unfold ratio_of in Hr.
  destruct (decide (0 < total)%Qc) as [Htot|Htot].
  2:{ injection Hr as <-. by apply Qclt_not_eq in Hrpos. }
  destruct (rate_of (window rt k)) as [r|e]; [|done]. cbn in Hr.
  unfold py_div in Hr. case_decide; [done|]. injection Hr as <-.
  exists r. split; [done|]. by apply (Qcdiv_pos_numerator _ _ Htot).
Qed.

(** X6.  A rate that [get_rate] returns is strictly positive exactly when
    the client has two or more retained timestamps and the last is later
    than the first; and an update gets a strictly positive weight from
    lines 76-85 only if its client is such a client. *)
Theorem positive_rate_and_positive_weight (rt : RateTracker) :
  (∀ (client_id : Z) (r : Qc),
     (get_rate client_id rt).1 = Ok r →
     ((0 < r)%Qc ↔
      ∃ oldest newest,
        2 ≤ length (window rt client_id) ∧
        head (window rt client_id) = Some oldest ∧
        last (window rt client_id) = Some newest ∧
        (oldest < newest)%Qc)) ∧
  (∀ (num_clients : nat) (client_ids : list Z) (weights : list Qc)
     (i : nat) (client_id : Z) (w : Qc),
     (compute_weights num_clients client_ids rt).1 = Ok weights →
     client_ids !! i = Some client_id →
     weights !! i = Some w →
     (0 < w)%Qc →
     ∃ oldest newest,
       2 ≤ length (window rt client_id) ∧
       head (window rt client_id) = Some oldest ∧
       last (window rt client_id) = Some newest ∧
       (oldest < newest)%Qc).
Proof.
  split.
  - intros client_id r. rewrite get_rate_result. apply rate_of_positive_iff.
  - intros num_clients client_ids weights i client_id w Hw Hk Hi Hpos.
    destruct (compute_weights_run num_clients client_ids rt) as (rt' & Hrun & _).
    rewrite Hrun in Hw. cbn [fst] in Hw.
    destruct (positive_weight_positive_rate _ _ _ _ _ _ _ Hw Hk Hi Hpos)
      as (r & Hr & Hrpos).
    by apply (rate_of_positive_iff _ r Hr).
Qed.

Lemma positive_rate_and_positive_weight_witness :
  ((0 < Q2Qc 1.5)%Qc ↔
   ∃ oldest newest,
     2 ≤ length (window example_tracker 0) ∧
     head (window example_tracker 0) = Some oldest ∧
     last (window example_tracker 0) = Some newest ∧
     (oldest < newest)%Qc) ∧
  (∃ oldest newest,
     2 ≤ length (window example_tracker 1) ∧
     head (window example_tracker 1) = Some oldest ∧
     last (window example_tracker 1) = Some newest ∧
     (oldest < newest)%Qc).
Proof.
  destruct (positive_rate_and_positive_weight example_tracker) as [Hrate Hweight].
  split.
  - apply (Hrate 0%Z). by_eval.
  - apply (Hweight 7 [0; 1; 2; 0]%Z
             [Q2Qc (1 # 3); Q2Qc (1 # 3); 0%Qc; Q2Qc (1 # 3)] 1 1%Z
             (Q2Qc (1 # 3))).
    + by_eval.
    + reflexivity.
    + reflexivity.
    + by_eval.
Defined.

(** * Further properties of the round *)

Lemma Qc_of_nat_S k :
  Qc_of_Z (Z.of_nat (S k)) = (Qc_of_Z (Z.of_nat k) + 1)%Qc.
Proof. by rewrite Nat2Z.inj_succ, <- Z.add_1_r, Z2Qc_inj_add, Z2Qc_inj_1. Qed.

Lemma py_sum_raw (c : Qc) ratios :
  py_sum ((λ ratio, if decide (0 < ratio)%Qc then c else 0%Qc) <$> ratios)
  = (Qc_of_Z (Z.of_nat (length (filter (λ r, 0 < r)%Qc ratios))) * c)%Qc.
Proof.
  induction ratios as [|r ratios IH].
  - change (py_sum [] = (Qc_of_Z 0 * c)%Qc). by rewrite Z2Qc_inj_0, Qcmult_0_l.
  - rewrite fmap_cons, py_sum_cons, IH, filter_cons.
    destruct (decide (0 < r)%Qc).
    + cbn [length]. rewrite Qc_of_nat_S. ring.
    + ring.
Qed.

(** Lines 76-85 in closed form: every update whose ratio is positive gets
    one share out of as many shares as there are such updates. *)
Lemma weights_of_shares num_clients rt client_ids rate_total ratios :
  0 < num_clients →
  (get_rate_total rt).1 = Ok rate_total →
  for_each (λ k, ratio_of rate_total (window rt k)) client_ids = Ok ratios →
  weights_of num_clients rt client_ids
  = Ok ((λ ratio,
          if decide (0 < ratio)%Qc
          then (1 / Qc_of_Z (Z.of_nat (length (filter (λ r, 0 < r)%Qc ratios))))%Qc
          else 0%Qc) <$> ratios).
Proof.
  intros Hn Htot Hratios. unfold weights_of. rewrite Htot. cbn.
  rewrite Hratios. cbn. rewrite raw_weights_run by done. cbn.
  rewrite renormalize_run. f_equal. rewrite <- list_fmap_compose.
  apply list_fmap_ext. intros i r Hr. cbn.
  rewrite py_sum_raw.
  set (K := Qc_of_Z (Z.of_nat (length (filter (λ r0, (0 < r0)%Qc) ratios)))).
  set (N := Qc_of_Z (Z.of_nat num_clients)).
  assert (N ≠ 0%Qc) as HN by by apply Qc_of_nat_nonzero.
  assert (0 < N)%Qc as HNpos.
  { apply Qc_of_Z_pos. lia. }
  destruct (decide (0 < r)%Qc) as [Hpos|Hneg].
  - assert (0 < K)%Qc as HK.
    { apply Qc_of_Z_pos.
      assert (r ∈ filter (λ r0, (0 < r0)%Qc) ratios) as Hin.
      { apply list_elem_of_filter. split; [done|]. by eapply list_elem_of_lookup_2. }
      destruct (filter _ ratios); [by apply elem_of_nil in Hin|cbn; lia]. }
    assert (K ≠ 0%Qc) as HK0 by (intros HK0; rewrite HK0 in HK; by apply Qclt_not_eq in HK).
    rewrite decide_True.
    + unfold Qcdiv. field. done.
    + apply Qcmult_pos_pos; [done|]. unfold Qcdiv. rewrite Qcmult_1_l.
      by apply Qcinv_pos.
  - case_decide; [|done]. unfold Qcdiv. by rewrite Qcmult_0_l.
Qed.

(** X7.  With at least one client configured and rates that can be
    computed, the weights of the round do not depend on [num_clients]: every
    update whose ratio is strictly positive gets 1 over the number of such
    updates in the batch, every other update gets 0. *)
Theorem weights_do_not_depend_on_num_clients
    (num_clients : nat) (rt : RateTracker) (client_ids : list Z)
    (rate_total : Qc) :
  0 < num_clients →
  (get_rate_total rt).1 = Ok rate_total →
  ∃ ratios,
    (rate_ratios rate_total client_ids rt).1 = Ok ratios ∧
    (compute_weights num_clients client_ids rt).1
    = Ok ((λ ratio,
            if decide (0 < ratio)%Qc
            then (1 / Qc_of_Z (Z.of_nat
                    (length (filter (λ r, 0 < r)%Qc ratios))))%Qc
            else 0%Qc) <$> ratios).
Proof.
  intros Hn Htot.
  destruct (ratios_ok rt rate_total client_ids Htot) as (ratios & Hratios & _).
  exists ratios. split.
  - by destruct (rate_ratios_run rate_total client_ids rt) as (rt1 & -> & _).
  - destruct (compute_weights_run num_clients client_ids rt) as (rt1 & -> & _).
    by apply (weights_of_shares _ _ _ rate_total).
Qed.

Lemma weights_do_not_depend_on_num_clients_witness :
  ∃ ratios,
    (rate_ratios (Q2Qc 2.5) [0; 1; 2; 0]%Z example_tracker).1 = Ok ratios ∧
    (compute_weights 7 [0; 1; 2; 0]%Z example_tracker).1
    = Ok ((λ ratio,
            if decide (0 < ratio)%Qc
            then (1 / Qc_of_Z (Z.of_nat
                    (length (filter (λ r, 0 < r)%Qc ratios))))%Qc
            else 0%Qc) <$> ratios).
Proof.
  apply (weights_do_not_depend_on_num_clients 7 example_tracker
           [0; 1; 2; 0]%Z (Q2Qc 2.5)).
  - lia.
  - by_eval.
Defined.

Lemma track_update_same_windows rt rt' k now :
  same_windows rt rt' →
  same_windows (track_update k now rt).2 (track_update k now rt').2.
Proof.
  intros [Hs Hw]. split.
  - by rewrite !track_update_window_size.
  - intros k'. by rewrite !track_update_window, Hs, !Hw.
Qed.

Lemma run_ops_cons o ops rt : run_ops (o :: ops) rt = run_ops ops (run_op rt o).
Proof. done. Qed.

(** The loop of lines 88-89 leaves the windows that the same
    [track_update] calls leave when made one by one. *)
Lemma track_clients_state clock (xs : list (nat * Z)) rt rt' :
  0 < window_size rt → same_windows rt rt' →
  ∃ units rt'',
    for_eachM (λ '(k, client_id), track_update client_id (clock k)) xs rt'
    = (Ok units, rt'') ∧
    same_windows
      (run_ops ((λ p : nat * Z, OpTrackUpdate p.2 (clock p.1)) <$> xs) rt) rt''.
Proof.
  revert rt rt'. induction xs as [|[k id] xs IH]; intros rt rt' Hws Hsame.
  - by exists [], rt'.
  - cbn [for_eachM]. unfold mbind at 1, M_bind at 1.
    pose proof (track_update_result rt' id (clock k)) as Hr.
    pose proof (track_update_same_windows rt rt' id (clock k) Hsame) as Hsame1.
    destruct Hsame as [Hs _].
    destruct (track_update id (clock k) rt') as [r rt1] eqn:Et. cbn [fst snd] in *.
    destruct (decide (window_size rt' = 0 ∧ window rt' id = [])) as [[? _]|_]; [lia|].
    subst r. unfold mbind at 1, M_bind at 1.
    rewrite fmap_cons, run_ops_cons. cbn [run_op fst snd].
    destruct (IH (track_update id (clock k) rt).2 rt1) as (units & rt2 & -> & Hsame2).
    { rewrite track_update_window_size. lia. }
    { done. }
    by exists (() :: units), rt2.
Qed.

Section RoundState.
Context {T : Type} `{Tensor T}.
Variable num_clients : nat.

(** X8.  On a batch that is not empty and a tracker with a positive
    window size: when the weights are computed, the round leaves the
    windows that one [track_update] per update, in batch order, leaves,
    whether the parameter loop and its assertions then succeed or raise;
    when computing the weights raises, the round raises the same exception
    and leaves every window as it was. *)
Theorem round_records_every_report
    (clock : nat → Qc) (global_model : ModelParams T) (version : Z)
    (client_updates : list (ClientUpdate T)) (rt : RateTracker) :
  client_updates ≠ [] →
  0 < window_size rt →
  (∀ weights,
     (compute_weights num_clients (update_id <$> client_updates) rt).1
     = Ok weights →
     ∀ k, window (aggregation_func num_clients clock (global_model, version)
                                   client_updates rt).2 k
          = window (run_ops (round_reports clock (update_id <$> client_updates))
                            rt) k) ∧
  (∀ e,
     (compute_weights num_clients (update_id <$> client_updates) rt).1
     = Raise e →
     (aggregation_func num_clients clock (global_model, version)
                       client_updates rt).1 = Raise e ∧
     ∀ k, window (aggregation_func num_clients clock (global_model, version)
                                   client_updates rt).2 k
          = window rt k).
Proof.
  intros Hne Hws.
  assert (aggregation_func num_clients clock (global_model, version)
                           client_updates rt
          = match compute_weights num_clients (update_id <$> client_updates) rt with
            | (Ok weights, rt1) =>
                (_ ← track_clients clock (update_id <$> client_updates);
                 new_global_model ← lift (for_each (merge_param weights)
                   (param_rows (update_new <$> client_updates)
                               (update_old <$> client_updates) global_model));
                 _ ← lift (check_sizes global_model new_global_model);
                 mret new_global_model) rt1
            | (Raise e, rt1) => (Raise e, rt1)
            end) as ->.
  { by rewrite aggregation_func_run. }
  destruct (compute_weights_run num_clients (update_id <$> client_updates) rt)
    as (rt1 & -> & Hsame1). cbn [fst].
  destruct (weights_of num_clients rt (update_id <$> client_updates))
    as [weights|e].
  - split; [|by intros e [=]]. intros ? [= <-] k.
    unfold mbind at 1, M_bind at 1, track_clients.
    destruct (track_clients_state clock
                (zip (seq 0 (length (update_id <$> client_updates)))
                     (update_id <$> client_updates)) rt rt1 Hws Hsame1)
      as (units & rt2 & -> & [_ Hw]).
    unfold round_reports. rewrite <- Hw.
    unfold mbind at 1, M_bind at 1, lift.
    destruct (for_each _ _) as [new|e]; [|done].
    unfold mbind at 1, M_bind at 1.
    by destruct (check_sizes global_model new).
  - split; [by intros ? [=]|]. intros ? [= <-]. split; [done|].
    intros k. cbn [snd]. apply Hsame1.
Qed.
End RoundState.

Lemma round_records_every_report_witness :
  (∀ weights,
     (compute_weights 2 (update_id <$> [example_update; foreign_update])
                      example_tracker).1 = Ok weights →
     ∀ k, window (aggregation_func 2 (λ n, Qc_of_Z (5 + Z.of_nat n))
                    (example_global, 0%Z) [example_update; foreign_update]
                    example_tracker).2 k
          = window (run_ops (round_reports (λ n, Qc_of_Z (5 + Z.of_nat n))
                               (update_id <$> [example_update; foreign_update]))
                            example_tracker) k) ∧
  (∀ e,
     (compute_weights 2 (update_id <$> [example_update; foreign_update])
                      example_tracker).1 = Raise e →
     (aggregation_func 2 (λ n, Qc_of_Z (5 + Z.of_nat n))
        (example_global, 0%Z) [example_update; foreign_update]
        example_tracker).1 = Raise e ∧
     ∀ k, window (aggregation_func 2 (λ n, Qc_of_Z (5 + Z.of_nat n))
                    (example_global, 0%Z) [example_update; foreign_update]
                    example_tracker).2 k
          = window example_tracker k).
Proof.
  apply (round_records_every_report 2 (λ n, Qc_of_Z (5 + Z.of_nat n))
           example_global 0%Z [example_update; foreign_update] example_tracker).
  - discriminate.
  - vm_compute. lia.
Defined.

Section RoundOutput.
Context {T : Type} `{Tensor T}.
Variable num_clients : nat.

Lemma check_sizes_Ok (global_model out : ModelParams T) units i a b :
  check_sizes global_model out = Ok units →
  global_model !! i = Some a → out !! i = Some b →
  a.1 = b.1 ∧ shape a.2 = shape b.2.
Proof.
  unfold check_sizes. intros Hc Ha Hb. apply for_each_Forall2 in Hc.
  assert (zip global_model out !! i = Some (a, b)) as Hi.
  { rewrite lookup_zip_with, Ha, Hb. done. }
  destruct (Forall2_lookup_l _ _ _ _ _ Hc Hi) as (u & _ & Hu).
  cbn [fst snd] in Hu.
  destruct (py_assert (bool_decide (a.1 = b.1))) as [u1|] eqn:E1; [|done].
  apply py_assert_Ok, bool_decide_eq_true in E1. cbn in Hu.
  apply py_assert_Ok, bool_decide_eq_true in Hu. done.
Qed.

Lemma Forall2_lookup_exists {A B} (f : A → option B) (xs : list A) :
  (∃ row, Forall2 (λ x y, f x = Some y) xs row) ↔ Forall (λ x, is_Some (f x)) xs.
Proof.
  split.
  - intros [row Hrow]. induction Hrow; constructor; eauto.
  - induction 1 as [|x xs [y Hy] _ [row IH]].
    + exists []. constructor.
    + exists (y :: row). by constructor.
Qed.

(** X9.  A round that returns has an output entry at exactly the
    positions that exist in the global model and in the old and the new
    model of every update (shorter updates silently shorten the output), and
    every entry has the name and the shape of the global parameter at its
    position. *)
Theorem round_output_positions
    (clock : nat → Qc) (global_model : ModelParams T) (version : Z)
    (client_updates : list (ClientUpdate T)) (rt : RateTracker)
    (out : ModelParams T) :
  (aggregation_func num_clients clock (global_model, version)
                    client_updates rt).1 = Ok out →
  (∀ i, is_Some (out !! i) ↔
        is_Some (global_model !! i) ∧
        Forall (λ u, is_Some (update_new u !! i) ∧ is_Some (update_old u !! i))
               client_updates) ∧
  (∀ i name value, out !! i = Some (name, value) →
        ∃ global_param, global_model !! i = Some (name, global_param) ∧
                        shape value = shape global_param).
Proof.
  intros Hout.
  apply aggregation_func_Ok in Hout as (Hne & weights & _ & Hloop & units & Hcheck).
  apply for_each_Forall2 in Hloop. split.
  - intros i. split.
    + intros [y Hy].
      destruct (Forall2_lookup_r _ _ _ _ _ Hloop Hy)
        as ([[row_new row_old] gp] & Hrow & _).
      apply param_rows_lookup in Hrow as (Hnew & Hold & Hg); [|done].
      split; [by exists gp|].
      assert (Forall (λ u, is_Some (update_new u !! i)) client_updates) as Hn.
      { apply Forall2_lookup_exists. by exists row_new. }
      assert (Forall (λ u, is_Some (update_old u !! i)) client_updates) as Ho.
      { apply Forall2_lookup_exists. by exists row_old. }
      apply Forall_forall. intros u Hu. split.
      * by apply (proj1 (Forall_forall _ _) Hn).
      * by apply (proj1 (Forall_forall _ _) Ho).
    + intros [[gp Hg] Hall].
      destruct (proj2 (Forall2_lookup_exists (λ u, update_new u !! i) client_updates))
        as [row_new Hnew].
      { eapply Forall_impl; [exact Hall|]. by intros u [? _]. }
      destruct (proj2 (Forall2_lookup_exists (λ u, update_old u !! i) client_updates))
        as [row_old Hold].
      { eapply Forall_impl; [exact Hall|]. by intros u [_ ?]. }
      assert (param_rows (update_new <$> client_updates)
                (update_old <$> client_updates) global_model !! i
              = Some (row_new, row_old, gp)) as Hrow.
      { by apply param_rows_lookup. }
      destruct (Forall2_lookup_l _ _ _ _ _ Hloop Hrow) as (y & Hy & _).
      by exists y.
  - intros i name value Hi.
    destruct (Forall2_lookup_r _ _ _ _ _ Hloop Hi)
      as ([[row_new row_old] [gname gparam]] & Hrow & Hmerge).
    apply param_rows_lookup in Hrow as (_ & _ & Hg); [|done].
    destruct (check_sizes_Ok _ _ _ _ _ _ Hcheck Hg Hi) as [Hname Hshape].
    cbn in Hname, Hshape. subst gname. by exists gparam.
Qed.

(** X12.  The round does not read the version of the global model nor the
    versions the updates started from: two calls that differ only in them
    give the same result and the same tracker. *)
Theorem round_ignores_versions
    (clock : nat → Qc) (global_model : ModelParams T) (version version' : Z)
    (client_updates client_updates' : list (ClientUpdate T)) (rt : RateTracker) :
  Forall2 (λ u u', update_id u = update_id u' ∧
                   update_old u = update_old u' ∧
                   update_new u = update_new u')
          client_updates client_updates' →
  aggregation_func num_clients clock (global_model, version) client_updates rt
  = aggregation_func num_clients clock (global_model, version') client_updates' rt.
Proof.
  intros Hsame.
  assert (update_id <$> client_updates = update_id <$> client_updates'
          ∧ update_old <$> client_updates = update_old <$> client_updates'
          ∧ update_new <$> client_updates = update_new <$> client_updates')
    as (Hid & Hold & Hnew).
  { induction Hsame as [|u u' us us' (? & ? & ?) _ (? & ? & ?)]; [done|].
    rewrite !fmap_cons. split_and!; congruence. }
  destruct Hsame as [|u u' us us' _ Hrest]; [done|].
  rewrite !aggregation_func_run by done.
  by rewrite Hid, Hold, Hnew.
Qed.
End RoundOutput.

Lemma round_output_positions_witness :
  (∀ i, is_Some ([("conv1.weight"%string, [Qc_of_Z 2; Qc_of_Z 4]);
                  ("bn1.running_mean"%string, [Qc_of_Z 5])] !! i) ↔
        is_Some (example_global !! i) ∧
        Forall (λ u, is_Some (update_new u !! i) ∧ is_Some (update_old u !! i))
               [example_update]) ∧
  (∀ i name value,
      [("conv1.weight"%string, [Qc_of_Z 2; Qc_of_Z 4]);
       ("bn1.running_mean"%string, [Qc_of_Z 5])] !! i = Some (name, value) →
      ∃ global_param, example_global !! i = Some (name, global_param) ∧
                      shape value = shape global_param).
Proof.
  apply (round_output_positions 1 (λ _, Qc_of_Z 3) example_global 0%Z
           [example_update] example_tracker).
  by_eval.
Defined.

Lemma round_ignores_versions_witness :
  aggregation_func 2 (λ _, Qc_of_Z 3) (example_global, 0%Z)
    [example_update] example_tracker
  = aggregation_func 2 (λ _, Qc_of_Z 3) (example_global, 41%Z)
      [(0%Z, update_old example_update, update_new example_update, 17%Z)]
      example_tracker.
Proof.
  apply (round_ignores_versions 2 (λ _, Qc_of_Z 3) example_global 0%Z 41%Z
           [example_update]
           [(0%Z, update_old example_update, update_new example_update, 17%Z)]
           example_tracker).
  repeat constructor.
Defined.

Lemma for_each_length {A B} (f : A → result B) xs ys :
  for_each f xs = Ok ys → length ys = length xs.
Proof. intros Hf. apply for_each_Forall2 in Hf. by apply Forall2_length in Hf. Qed.

Lemma compute_weights_length num_clients client_ids rt weights :
  (compute_weights num_clients client_ids rt).1 = Ok weights →
  length weights = length client_ids.
Proof.
  destruct (compute_weights_run num_clients client_ids rt) as (rt1 & -> & _).
  cbn [fst]. unfold weights_of.
  destruct (get_rate_total rt).1 as [total|]; [|done]. cbn.
  destruct (for_each _ client_ids) as [ratios|] eqn:E1; [|done]. cbn.
  destruct (raw_weights num_clients ratios) as [raw|] eqn:E2; [|done]. cbn.
  intros E3. unfold raw_weights in E2. unfold renormalize in E3.
  apply for_each_length in E1, E2, E3. congruence.
Qed.

Section UntrainedUpdates.
Context {T : Type} `{Tensor T}.
Hypothesis laws : TensorLaws T.
Hypothesis algebra : TensorAlgebra T.

Lemma zero_deltas (row : list (string * T)) deltas :
  for_each (λ p : (string * T) * (string * T), tsub p.1.2 p.2.2) (zip row row)
  = Ok deltas →
  Forall tzero deltas.
Proof.
  revert deltas. induction row as [|p row IH]; intros deltas.
  - by intros [= <-].
  - cbn [zip_with for_each]. cbn [fst snd].
    destruct (tsub p.2 p.2) as [d|] eqn:Ed; [|done]. cbn.
    destruct (for_each _ (zip row row)) as [ds|] eqn:Eds; [|done]. cbn.
    intros [= <-]. constructor; [|by apply IH].
    by apply (tsub_self_zero T algebra p.2).
Qed.

Lemma scaled_zero_deltas (gparam : T) weights deltas :
  length weights = length deltas →
  Forall (λ d, shape d = shape gparam) deltas → Forall tzero deltas →
  Forall (λ d, shape d = shape gparam ∧ tzero d) (zip_with tscale weights deltas) ∧
  length (zip_with tscale weights deltas) = length deltas.
Proof.
  revert weights. induction deltas as [|d deltas IH]; intros [|w weights] Hl Hs Hz;
    try done.
  apply Forall_cons in Hs as [Hd Hs]. apply Forall_cons in Hz as [Hzd Hz].
  destruct (IH weights) as [IH1 IH2]; [by injection Hl|done..|].
  cbn. split; [|by rewrite IH2]. constructor; [|done]. split.
  - by rewrite (tscale_shape T laws).
  - by apply (tscale_tzero T algebra).
Qed.

(** When a row of new parameters is also the row of old ones, the loop
    body returns the global parameter whatever the weights are. *)
Lemma merge_param_zero_deltas weights (gp : string * T) row :
  row ≠ [] → length weights = length row →
  Forall (λ p, same_signature p gp) row →
  merge_param weights (row, row, gp) = Ok gp.
Proof.
  destruct gp as [gname gparam]. intros Hne Hlen Hsig.
  destruct (deltas_ok laws gparam row row) as (deltas & Hd & Hl & Hs).
  { done. }
  { eapply Forall_impl; [exact Hsig|]. by intros p [_ ?]. }
  { eapply Forall_impl; [exact Hsig|]. by intros p [_ ?]. }
  pose proof (zero_deltas row deltas Hd) as Hz.
  destruct (scaled_zero_deltas gparam weights deltas) as [Hw Hwl];
    [congruence|done..|].
  destruct row as [|first row]; [done|].
  apply Forall_cons in Hsig as [[Hname Hshape] _]. cbn in Hname, Hshape.
  unfold merge_param. cbn [head]. cbn -[for_each zip_with length].
  rewrite bool_decide_eq_true_2 by done. cbn -[for_each zip_with length].
  rewrite bool_decide_eq_true_2 by done. cbn -[for_each zip_with length].
  rewrite Hd. cbn -[for_each zip_with length].
  rewrite bool_decide_eq_true_2 by done. cbn -[for_each zip_with length].
  destruct (zip_with tscale weights deltas) as [|w weighted] eqn:Ew.
  { cbn in Hwl, Hl. lia. }
  apply Forall_cons in Hw as [[Hwsh Hwz] Hw].
  destruct (tstack_sum_shape T laws w weighted) as (z & Hsum & Hzsh).
  { eapply Forall_impl; [exact Hw|]. intros u [? _]. congruence. }
  rewrite Hsum. cbn.
  assert (tzero z) as Hzz.
  { apply (tstack_sum_zero T laws (w :: weighted)); [|done].
    constructor; [done|]. eapply Forall_impl; [exact Hw|]. by intros u [_ ?]. }
  rewrite (tadd_zero T laws gparam z Hzz) by congruence. cbn.
  rewrite Hname. by destruct (str_contains "bn" gname).
Qed.

(** X10.  When every update of a batch that is not empty has the global
    model's names and shapes and its new model equals its old model, a round
    whose weights can be computed returns the global model it was given,
    whatever the weights are. *)
Theorem untrained_updates_leave_global_unchanged
    (num_clients : nat) (clock : nat → Qc) (global_model : ModelParams T)
    (version : Z) (client_updates : list (ClientUpdate T))
    (rt : RateTracker) (weights : list Qc) :
  client_updates ≠ [] →
  0 < window_size rt →
  Forall (λ u, matches_global global_model u ∧ update_new u = update_old u)
         client_updates →
  (compute_weights num_clients (update_id <$> client_updates) rt).1
  = Ok weights →
  (aggregation_func num_clients clock (global_model, version)
                    client_updates rt).1 = Ok global_model.
Proof.
  intros Hne Hws Hwf Hweights.
  pose proof (compute_weights_length _ _ _ _ Hweights) as Hlen.
  rewrite length_fmap in Hlen.
  assert (for_each (merge_param weights)
            (param_rows (update_new <$> client_updates)
                        (update_old <$> client_updates) global_model)
          = Ok global_model) as Hloop.
  { replace (update_old <$> client_updates) with (update_new <$> client_updates).
    2:{ apply list_fmap_ext. intros i u Hu.
        by apply (proj1 (Forall_lookup _ _) Hwf i u Hu). }
    apply for_each_Forall2. apply Forall2_same_length_lookup_2.
    - unfold param_rows. rewrite !length_zip_with.
      rewrite (zip_star_length _ (length global_model)); [lia| |].
      + by destruct client_updates.
      + apply Forall_fmap. eapply Forall_impl; [exact Hwf|].
        intros u [[Hu _] _]. by apply Forall2_length in Hu.
    - intros i [[row_new row_old] gp'] gp Hrow Hg.
      unfold param_rows in Hrow. rewrite !lookup_zip_with in Hrow.
      destruct (zip_star (update_new <$> client_updates) !! i) as [row|] eqn:Erow;
        [|done].
      cbn in Hrow. rewrite Hg in Hrow. cbn in Hrow. injection Hrow as <- <- <-.
      apply zip_star_lookup_Some in Erow; [|by destruct client_updates].
      apply Forall2_fmap_l in Erow.
      assert (Forall (λ p, same_signature p gp) row) as Hsig.
      { clear -Erow Hwf Hg. induction Erow as [|u p us row' Hp _ IH]; [done|].
        apply Forall_cons in Hwf as [[[Hu _] _] Hwf]. constructor; [|by apply IH].
        destruct (Forall2_lookup_l _ _ _ _ _ Hu Hp) as (g' & Hg' & Hsig).
        rewrite Hg in Hg'. by injection Hg' as <-. }
      apply Forall2_length in Erow.
      apply merge_param_zero_deltas; [|congruence|done].
      destruct row; [|done]. by destruct client_updates. }
  rewrite aggregation_func_run by done.
  unfold mbind at 1, M_bind at 1.
  destruct (compute_weights_run num_clients (update_id <$> client_updates) rt)
    as (rt1 & Hcw & Hs1 & _). rewrite Hcw in Hweights |- *.
  cbn [fst] in Hweights. rewrite Hweights.
  unfold mbind at 1, M_bind at 1.
  destruct (track_clients_ok clock (update_id <$> client_updates) rt1)
    as (units & rt2 & ->); [lia|].
  unfold mbind at 1, M_bind at 1, lift. rewrite Hloop.
  unfold mbind at 1, M_bind at 1.
  destruct (check_sizes_same global_model) as [us ->]. done.
Qed.
End UntrainedUpdates.

Lemma tensor1_algebra : TensorAlgebra tensor1.
Proof.
  split.
  - intros a c. cbn. unfold broadcast2. rewrite decide_True by done.
    intros [= <-]. induction a as [|x a IH]; [done|].
    cbn. constructor; [|done]. unfold Qcminus. apply Qcplus_opp_r.
  - intros w a Ha. cbn. apply Forall_fmap. eapply Forall_impl; [exact Ha|].
    intros x ->. cbn. apply Qcmult_0_r.
  - intros a. cbn. induction a as [|x a IH]; [done|].
    cbn. by rewrite Qcmult_1_l, IH.
  - intros a. reflexivity.
Qed.

Lemma untrained_updates_leave_global_unchanged_witness :
  (aggregation_func 2 (λ _, Qc_of_Z 3) (example_global, 0%Z)
     [untrained_update; untrained_update] example_tracker).1
  = Ok example_global.
Proof.
  apply (untrained_updates_leave_global_unchanged tensor1_laws tensor1_algebra
           2 (λ _, Qc_of_Z 3) example_global 0%Z
           [untrained_update; untrained_update] example_tracker
           [Q2Qc 0.5; Q2Qc 0.5]).
  - discriminate.
  - vm_compute. lia.
  - repeat constructor.
  - by_eval.
Defined.

Section LoneUpdate.
Context {T : Type} `{Tensor T}.
Hypothesis algebra : TensorAlgebra T.

(** X11.  A batch of one update, from a client with a strictly positive
    rate while the total rate is strictly positive, gets the weight 1
    whatever [num_clients] is; and in the parameters the round returns, every
    one whose name does not contain "bn" is the global parameter plus (new
    minus old) of that update. *)
Theorem lone_eligible_update_is_applied_in_full
    (num_clients : nat) (clock : nat → Qc) (global_model : ModelParams T)
    (version : Z) (u : ClientUpdate T) (rt : RateTracker)
    (rate_total r : Qc) :
  0 < num_clients →
  (get_rate_total rt).1 = Ok rate_total → (0 < rate_total)%Qc →
  (get_rate (update_id u) rt).1 = Ok r → (0 < r)%Qc →
  (compute_weights num_clients [update_id u] rt).1 = Ok [1%Qc] ∧
  ∀ out,
    (aggregation_func num_clients clock (global_model, version) [u] rt).1
    = Ok out →
    ∀ i name value,
      out !! i = Some (name, value) → str_contains "bn" name = false →
      ∃ global_param p_new p_old delta,
        global_model !! i = Some (name, global_param) ∧
        update_new u !! i = Some p_new ∧
        update_old u !! i = Some p_old ∧
        tsub p_new.2 p_old.2 = Ok delta ∧
        tadd global_param delta = Ok value.
Proof.
  intros Hn Htot Htotpos Hr Hrpos.
  assert ((compute_weights num_clients [update_id u] rt).1 = Ok [1%Qc]) as Hw.
  { destruct (compute_weights_run num_clients [update_id u] rt) as (rt1 & -> & _).
    cbn [fst].
    rewrite (weights_of_shares _ _ _ rate_total [(r / rate_total)%Qc]); [|done..|].
    - assert (0 < r / rate_total)%Qc as Hpos.
      { apply Qcmult_pos_pos; [done|]. by apply Qcinv_pos. }
      cbn [fmap list_fmap]. rewrite filter_cons, decide_True by done.
      rewrite decide_True by done. cbn [filter list_filter length].
      change (Z.of_nat 1) with 1%Z. by rewrite Z2Qc_inj_1, (right_id 1%Qc Qcdiv).
    - cbn [for_each]. rewrite get_rate_result in Hr.
      rewrite (ratio_of_ok _ _ _ Hr), decide_True by done. done. }
  split; [done|]. intros out Hout i name value Hi Hbn.
  apply aggregation_func_Ok in Hout as (_ & weights & Hw' & Hloop & _).
  cbn [fmap list_fmap] in Hw'. rewrite Hw in Hw'. injection Hw' as <-.
  apply for_each_Forall2 in Hloop.
  destruct (Forall2_lookup_r _ _ _ _ _ Hloop Hi)
    as ([[row_new row_old] [gname gparam]] & Hrow & Hmerge).
  apply param_rows_lookup in Hrow as (Hnew & Hold & Hg); [|done].
  apply merge_param_Ok in Hmerge
    as (first & deltas & merged & new_param & _ & _ & -> & _ & _
        & Hdeltas & Hsum & Hadd & ->).
  rewrite Hbn.
  inversion Hnew as [|? p_new ? ? Hpn Hnil1]; subst. inversion Hnil1; subst.
  inversion Hold as [|? p_old ? ? Hpo Hnil2]; subst. inversion Hnil2; subst.
  cbn [zip_with for_each] in Hdeltas. cbn [fst snd] in Hdeltas.
  destruct (tsub p_new.2 p_old.2) as [delta|] eqn:Ed; [|done].
  cbn in Hdeltas. injection Hdeltas as <-.
  cbn [zip_with] in Hsum.
  rewrite (tscale_one T algebra), (tstack_sum_single T algebra) in Hsum.
  injection Hsum as <-.
  by exists gparam, p_new, p_old, delta.
Qed.
End LoneUpdate.

Lemma lone_eligible_update_is_applied_in_full_witness :
  (compute_weights 4 [update_id example_update] example_tracker).1 = Ok [1%Qc] ∧
  ∀ out,
    (aggregation_func 4 (λ _, Qc_of_Z 3) (example_global, 0%Z)
       [example_update] example_tracker).1 = Ok out →
    ∀ i name value,
      out !! i = Some (name, value) → str_contains "bn" name = false →
      ∃ global_param p_new p_old delta,
        example_global !! i = Some (name, global_param) ∧
        update_new example_update !! i = Some p_new ∧
        update_old example_update !! i = Some p_old ∧
        tsub p_new.2 p_old.2 = Ok delta ∧
        tadd global_param delta = Ok value.
Proof.
  apply (lone_eligible_update_is_applied_in_full tensor1_algebra 4
           (λ _, Qc_of_Z 3) example_global 0%Z example_update example_tracker
           (Q2Qc 2.5) (Q2Qc 1.5)).
  - lia.
  - by_eval.
  - by_eval.
  - by_eval.
  - by_eval.
Defined.

(** * Further properties of the client-info parser *)

Lemma str_index_Ok_elem c s i :
  str_index c s = Ok i → c ∈ String.list_ascii_of_string s.
Proof.
  revert i. induction s as [|c' s IH]; intros i; simpl; [done|].
  destruct (decide (c' = c)) as [->|Hne]; [intros _; by left|].
  destruct (str_index c s) as [j|] eqn:Ej; [|done].
  intros _. right. by eapply IH.
Qed.

Lemma str_split_nonempty sep s : str_split sep s ≠ [].
Proof.
  destruct s as [|c s]; simpl; [done|].
  destruct (decide (c = sep)); [done|]. by destruct (str_split sep s).
Qed.

Lemma str_split_snoc sep s :
  str_split sep (String.append s (String sep EmptyString))
  = str_split sep s ++ [EmptyString].
Proof.
  induction s as [|c s IH]; simpl.
  - by rewrite decide_True.
  - destruct (decide (c = sep)); [by rewrite IH|].
    rewrite IH. pose proof (str_split_nonempty sep s) as Hne.
    by destruct (str_split sep s).
Qed.

Lemma str_split_absent sep s :
  sep ∉ String.list_ascii_of_string s → str_split sep s = [s].
Proof.
  induction s as [|c s IH]; simpl; [done|].
  intros Hc. apply not_elem_of_cons in Hc as [Hne Hc].
  rewrite decide_False by done. by rewrite IH.
Qed.

Lemma str_split_first sep a b :
  sep ∉ String.list_ascii_of_string a →
  str_split sep (String.append a (String sep b)) = a :: str_split sep b.
Proof.
  induction a as [|c a IH]; simpl.
  - intros _. by rewrite decide_True.
  - intros Hc. apply not_elem_of_cons in Hc as [Hne Hc].
    rewrite decide_False by done. by rewrite IH.
Qed.

Lemma for_each_const_Ok {A B} (r : result B) (xs : list A) ys :
  for_each (λ _, r) xs = Ok ys →
  Forall (λ y, r = Ok y) ys ∧ length ys = length xs.
Proof.
  intros Hf. apply for_each_Forall2 in Hf. split.
  - induction Hf; constructor; done.
  - symmetry. by eapply Forall2_length.
Qed.

Lemma for_each_snoc_raise {A B} (f : A → result B) xs x e :
  f x = Raise e → ∃ e', for_each f (xs ++ [x]) = Raise e'.
Proof.
  intros Hx. induction xs as [|y xs [e' IH]]; cbn [app for_each].
  - rewrite Hx. by exists e.
  - destruct (f y) as [b|e'']; [|by exists e''].
    rewrite bind_Ok, IH. by exists e'.
Qed.

Section ClientInfoFurther.
Context {F R : Type}.
Variable py_float : string → result F.
Variable construct : runtime_class → list F → result R.

(** X13.  When the loop body returns for a token, the token starts with
    a known type code, contains an opening bracket, the text between the
    type code and the first opening bracket splits on "/" into strings that
    [float] accepts, and the result consists of exactly the count of the
    token many results of the runtime class called on those parameters. *)
Theorem runtimes_of_token_returns (raw_client : string) (rs : list R) :
  runtimes_of_token py_float construct raw_client = Ok rs →
  ∃ c rest cls stop ps,
    raw_client = String c rest ∧
    CLIENT_TYPE_TO_MODEL c = Ok cls ∧
    str_index "["%char raw_client = Ok stop ∧
    for_each py_float
      (str_split "/"%char (String.substring 1 (stop - 1) raw_client)) = Ok ps ∧
    Forall (λ r, construct cls ps = Ok r) rs ∧
    length rs = token_count raw_client.
Proof.
  unfold runtimes_of_token. fold (token_count raw_client).
  destruct raw_client as [|c rest]; [done|]. rewrite bind_Ok.
  destruct (CLIENT_TYPE_TO_MODEL c) as [cls|] eqn:Ec; [|done]. rewrite bind_Ok.
  destruct (str_index "["%char (String c rest)) as [stop|] eqn:Es; [|done].
  rewrite bind_Ok.
  destruct (for_each py_float _) as [ps|] eqn:Ep; [|done]. rewrite bind_Ok.
  intros Hrs. apply for_each_const_Ok in Hrs as [Hall Hlen].
  rewrite length_replicate in Hlen.
  by exists c, rest, cls, stop, ps.
Qed.

(** What the count and the checks of a returning token are. *)
Lemma token_Ok_shape (raw_client : string) (rs : list R) :
  runtimes_of_token py_float construct raw_client = Ok rs →
  ∃ c rest cls stop,
    raw_client = String c rest ∧
    CLIENT_TYPE_TO_MODEL c = Ok cls ∧
    str_index "["%char raw_client = Ok stop ∧
    length rs = token_count raw_client.
Proof.
  unfold runtimes_of_token. fold (token_count raw_client).
  destruct raw_client as [|c rest]; [done|]. rewrite bind_Ok.
  destruct (CLIENT_TYPE_TO_MODEL c) as [cls|] eqn:Ec; [|done]. rewrite bind_Ok.
  destruct (str_index "["%char (String c rest)) as [stop|] eqn:Es; [|done].
  rewrite bind_Ok.
  destruct (for_each py_float _) as [ps|]; [|done]. rewrite bind_Ok.
  intros Hrs. apply for_each_length in Hrs. rewrite length_replicate in Hrs.
  by exists c, rest, cls, stop.
Qed.

Lemma CLIENT_TYPE_TO_MODEL_Ok c cls :
  CLIENT_TYPE_TO_MODEL c = Ok cls → c = "i"%char ∨ c = "g"%char.
Proof.
  unfold CLIENT_TYPE_TO_MODEL.
  destruct (decide (c = "i"%char)); [by left|].
  destruct (decide (c = "g"%char)); [by right|done].
Qed.

(** X14.  When the client-info loop returns, every comma-separated token
    is non-empty, starts with "i" or "g" and contains an opening bracket, and
    the number of runtimes (hence [num_clients]) is the sum of the counts of
    the tokens. *)
Theorem client_runtimes_returns (client_info : string) (rs : list R) :
  client_runtimes py_float construct client_info = Ok rs →
  Forall (λ raw_client,
            ∃ c rest, raw_client = String c rest ∧
                      (c = "i"%char ∨ c = "g"%char) ∧
                      "["%char ∈ String.list_ascii_of_string raw_client)
         (str_split ","%char client_info) ∧
  length rs = sum_list (token_count <$> str_split ","%char client_info).
Proof.
  unfold client_runtimes.
  destruct (for_each _ _) as [groups|] eqn:Eg; [|done]. rewrite bind_Ok.
  intros [= <-]. apply for_each_Forall2 in Eg.
  induction Eg as [|tok g toks gs Htok _ [IH1 IH2]]; [done|].
  apply token_Ok_shape in Htok as (c & rest & cls & stop & -> & Hc & Hs & Hlen).
  split.
  - constructor; [|done]. exists c, rest. split_and!; [done| |].
    + by eapply CLIENT_TYPE_TO_MODEL_Ok.
    + by eapply str_index_Ok_elem.
  - rewrite fmap_cons. cbn [List.concat sum_list sum_list_with].
    rewrite length_app, Hlen. f_equal. exact IH2.
Qed.

(** X15.  An empty [--client-info] raises [IndexError], and a
    [--client-info] that ends with a comma never parses: its last token is
    empty. *)
Theorem empty_token_raises :
  client_runtimes py_float construct "" = Raise IndexError ∧
  ∀ client_info : string,
    ∃ e, client_runtimes py_float construct
           (String.append client_info ",") = Raise e.
Proof.
  split; [done|]. intros s. unfold client_runtimes.
  rewrite str_split_snoc.
  destruct (for_each_snoc_raise (runtimes_of_token py_float construct)
              (str_split ","%char s) EmptyString IndexError eq_refl) as [e ->].
  by exists e.
Qed.

(** X16.  Parsing [first,more], where [first] has no comma, is parsing
    the token [first], then parsing [more], and appending the two results;
    the exception of the first failing token is the one raised. *)
Theorem client_runtimes_first_token (first more : string) :
  ","%char ∉ String.list_ascii_of_string first →
  client_runtimes py_float construct
    (String.append first (String "," more))
  = (group ← runtimes_of_token py_float construct first;
     others ← client_runtimes py_float construct more;
     Ok (group ++ others)).
Proof.
  intros Hfirst. unfold client_runtimes. rewrite str_split_first by done.
  cbn [for_each].
  destruct (runtimes_of_token py_float construct first) as [group|]; [|done].
  rewrite !bind_Ok.
  destruct (for_each _ (str_split ","%char more)) as [groups|]; [|done].
  by rewrite !bind_Ok.
Qed.

(** X17.  In a token, the parameters are what stands between the type
    code and the first opening bracket; what follows that bracket only
    determines the count, which is 1 when no bracketed number is found
    there. *)
Theorem token_splits_at_first_bracket (c : ascii) (params rest : string) :
  "["%char ∉ String.list_ascii_of_string params →
  runtimes_of_token py_float construct
    (String c (String.append params (String "[" rest)))
  = (cls ← CLIENT_TYPE_TO_MODEL c;
     ps ← for_each py_float (str_split "/"%char params);
     for_each (λ _, construct cls ps)
              (replicate (token_count (String "[" rest)) ())).
Proof.
  intros Hparams. unfold runtimes_of_token. rewrite bind_Ok.
  destruct (CLIENT_TYPE_TO_MODEL c) as [cls|] eqn:Ec; [|done]. rewrite !bind_Ok.
  assert (c ≠ "["%char) as Hc.
  { intros ->. done. }
  cbn [str_index]. rewrite decide_False by done.
  rewrite str_index_first by done. rewrite !bind_Ok.
  rewrite Nat.sub_succ, Nat.sub_0_r.
  change (String.substring 1 ?n (String c ?s)) with (String.substring 0 n s).
  rewrite substring_prefix.
  assert (search_count (String c (String.append params (String "[" rest)))
          = search_count (String "[" rest)) as Hcount.
  { cbn [search_count]. rewrite decide_False by done.
    by rewrite search_count_skip. }
  unfold token_count. by rewrite Hcount.
Qed.
End ClientInfoFurther.

Lemma runtimes_of_token_returns_witness :
  ∃ c rest cls stop ps,
    "g0.0/2.0[3]"%string = String c rest ∧
    CLIENT_TYPE_TO_MODEL c = Ok cls ∧
    str_index "["%char "g0.0/2.0[3]" = Ok stop ∧
    for_each (λ s, Ok s)
      (str_split "/"%char (String.substring 1 (stop - 1) "g0.0/2.0[3]")) = Ok ps ∧
    Forall (λ r, Ok (cls, ps) = Ok r)
           (replicate 3 (GaussianRuntime, ["0.0"; "2.0"]%string)) ∧
    length (replicate 3 (GaussianRuntime, ["0.0"; "2.0"]%string))
    = token_count "g0.0/2.0[3]".
Proof.
  apply (runtimes_of_token_returns (λ s, Ok s) (λ cls ps, Ok (cls, ps))
           "g0.0/2.0[3]" (replicate 3 (GaussianRuntime, ["0.0"; "2.0"]%string))).
  reflexivity.
Defined.

Lemma client_runtimes_returns_witness :
  Forall (λ raw_client,
            ∃ c rest, raw_client = String c rest ∧
                      (c = "i"%char ∨ c = "g"%char) ∧
                      "["%char ∈ String.list_ascii_of_string raw_client)
         (str_split ","%char "i0.0[2],g0.0/2.0[3]") ∧
  length (replicate 2 (InstantRuntime, ["0.0"%string])
          ++ replicate 3 (GaussianRuntime, ["0.0"; "2.0"]%string))
  = sum_list (token_count <$> str_split ","%char "i0.0[2],g0.0/2.0[3]").
Proof.
  apply (client_runtimes_returns (λ s, Ok s) (λ cls ps, Ok (cls, ps))
           "i0.0[2],g0.0/2.0[3]"
           (replicate 2 (InstantRuntime, ["0.0"%string])
            ++ replicate 3 (GaussianRuntime, ["0.0"; "2.0"]%string))).
  reflexivity.
Defined.

Lemma not_in_chars (c : ascii) (s : string) :
  bool_decide (c ∈ String.list_ascii_of_string s) = false →
  c ∉ String.list_ascii_of_string s.
Proof. by intros ?%bool_decide_eq_false. Qed.

Lemma client_runtimes_first_token_witness :
  client_runtimes (λ s, Ok s) (λ cls ps, Ok (cls, ps))
    (String.append "i0.0[2]" (String "," "g0.0/2.0[3]"))
  = (group ← runtimes_of_token (λ s, Ok s) (λ cls ps, Ok (cls, ps)) "i0.0[2]";
     others ← client_runtimes (λ s, Ok s) (λ cls ps, Ok (cls, ps)) "g0.0/2.0[3]";
     Ok (group ++ others)).
Proof.
  apply (client_runtimes_first_token (λ s, Ok s) (λ cls ps, Ok (cls, ps))
           "i0.0[2]" "g0.0/2.0[3]").
  apply not_in_chars. reflexivity.
Defined.

Lemma token_splits_at_first_bracket_witness :
  runtimes_of_token (λ s, Ok s) (λ cls ps, Ok (cls, ps))
    (String "i" (String.append "0.5" (String "[" "]")))
  = (cls ← CLIENT_TYPE_TO_MODEL "i";
     ps ← for_each (λ s, Ok s) (str_split "/"%char "0.5");
     for_each (λ _, Ok (cls, ps)) (replicate (token_count (String "[" "]")) ())).
Proof.
  apply (token_splits_at_first_bracket (λ s, Ok s) (λ cls ps, Ok (cls, ps))
           "i" "0.5" "]").
  apply not_in_chars. reflexivity.
Defined.

Lemma get_rate_total_reads_every_client_witness :
  ∃ rates,
    Forall2 (λ k r, (get_rate k example_tracker).1 = Ok r)
            (map_to_list (client_update example_tracker)).*1 rates ∧
    Q2Qc 2.5 = py_sum rates.
Proof.
  apply (proj2 (proj2 (proj2 (get_rate_total_reads_every_client example_tracker)))).
  by_eval.
Defined.

(** * The table of load functions *)

(** X18.  The lookup of the load function (lines 131-133) returns
    exactly for the datasets and data distributions that the argument parser
    admits as choices: on parsed arguments it never raises [KeyError]. *)
Theorem load_function_lookup_total
    (num_remove : option Z) (dataset data_distribution : string) :
  (∃ f, select_load_function num_remove dataset data_distribution = Ok f) ↔
  dataset ∈ dataset_choices ∧ data_distribution ∈ data_distribution_choices.
Proof.
  unfold select_load_function, load_functions, dataset_choices,
    data_distribution_choices.
  split.
  - intros [f Hf]. cbn [dict_get] in Hf.
    repeat (destruct (decide (_ = dataset)) as [<-|?] in Hf;
            [rewrite bind_Ok in Hf; cbn [dict_get] in Hf;
             repeat (destruct (decide (_ = data_distribution)) as [<-|?] in Hf;
                     [split; set_solver|]); done|]).
    done.
  - intros [Hd Hdd].
    apply list_elem_of_In in Hd. apply list_elem_of_In in Hdd.
    cbn [In] in Hd, Hdd.
    destruct Hd as [<-|[<-|[]]]; destruct Hdd as [<-|[<-|[<-|[<-|[]]]]];
      by eexists.
Qed.

Lemma load_function_lookup_total_witness :
  ∃ f, select_load_function (Some 3%Z) "fashion_mnist" "randomly_remove" = Ok f.
Proof.
  apply (proj2 (load_function_lookup_total (Some 3%Z)
                  "fashion_mnist" "randomly_remove")).
  split; [by right; left|by do 3 right; left].
Defined.
